(** * mediaNest-backend: the authenticated search proxy of [server.js]

    The server has two routes.  [/api/search] validates [mediaType] and
    [license], builds the Openverse URL, obtains an OAuth2 token with
    [getAccessToken] and relays the upstream answer; [/api/health] answers a
    fixed object.

    The embedding is shallow.  JavaScript values are an inductive type with
    the coercions the source relies on (truthiness, [ToString], strict
    equality with a string literal, [Array.prototype.includes]).  The two
    [axios] calls are the only effects that matter to the properties below:
    a handler is a computation that reads the upstream (a function from
    network calls to replies), records the calls it issues in order, and
    either returns or throws.  What is written to the console is not
    modelled; the conversion to text of what the handler interpolates into a
    logged message is, since it can throw. *)

From Stdlib Require Import String Ascii List Bool NArith Lia DecimalString.
Import ListNotations.
Open Scope string_scope.

Set Warnings "-register-all".

(** ** JavaScript values *)

Module Js.

(** A value of [req.query] as Express hands it over: absent, a string, or
    (repeated and bracketed parameters) an array or an object.  The
    extended query parser keeps keys that shadow [Object.prototype], so
    [?q[toString]=x] gives an object with an own property [toString]. *)
Inductive QVal : Type :=
| QUndef
| QStr (s : string)
| QArr (items : list QVal)
| QObj (fields : list (string * QVal)).

(** A value of [response.data]: parsed JSON, or a string when the body was
    not JSON.  A number is carried by its decimal rendering, which is all
    the source ever observes of one (it is falsy exactly when it renders
    as ["0"]).  An object is the list of its own properties. *)
Inductive Value : Type :=
| VUndefined
| VNull
| VBool (b : bool)
| VNum (rendering : string)
| VStr (s : string)
| VArr (items : list Value)
| VObj (fields : list (string * Value)).

Fixpoint join (sep : string) (l : list string) : string :=
  match l with
  | [] => ""
  | [x] => x
  | x :: rest => x ++ sep ++ join sep rest
  end.

Fixpoint assoc {A : Type} (k : string) (l : list (string * A)) : option A :=
  match l with
  | [] => None
  | (k', v) :: rest => if String.eqb k k' then Some v else assoc k rest
  end.

(** [Array.prototype.includes] on an array of string literals: only a
    string is ever the same value as one of them. *)
Definition includes (l : list string) (v : QVal) : bool :=
  match v with
  | QStr s => existsb (String.eqb s) l
  | _ => false
  end.

(** ToBoolean. *)
Definition q_truthy (v : QVal) : bool :=
  match v with
  | QUndef => false
  | QStr s => negb (String.eqb s "")
  | QArr _ | QObj _ => true
  end.

Definition truthy (v : Value) : bool :=
  match v with
  | VUndefined | VNull => false
  | VBool b => b
  | VNum r => negb (String.eqb r "0")
  | VStr s => negb (String.eqb s "")
  | VArr _ | VObj _ => true
  end.

Fixpoint sequence {A : Type} (l : list (option A)) : option (list A) :=
  match l with
  | [] => Some []
  | None :: _ => None
  | Some x :: rest =>
      match sequence rest with
      | Some xs => Some (x :: xs)
      | None => None
      end
  end.

(** ToString on a query value; [None] is the [TypeError] of ToPrimitive.
    [Array.prototype.join] renders an absent element as the empty string.
    An object answers with [Object.prototype.toString] unless it has an own
    property [toString]: that property is data, hence not callable, and the
    fallback [valueOf] returns the object itself. *)
Fixpoint q_to_string (v : QVal) : option string :=
  match v with
  | QUndef => Some "undefined"
  | QStr s => Some s
  | QArr items =>
      option_map (join ",")
        (sequence (map (fun x => match x with
                                 | QUndef => Some ""
                                 | _ => q_to_string x
                                 end) items))
  | QObj fields =>
      match assoc "toString" fields with
      | Some _ => None
      | None => Some "[object Object]"
      end
  end.

(** ToString on upstream data, with the same [TypeError].
    A parsed object answers with [Object.prototype.toString] unless it has
    an own property [toString]. *)
Fixpoint to_string (v : Value) : option string :=
  match v with
  | VUndefined => Some "undefined"
  | VNull => Some "null"
  | VBool true => Some "true"
  | VBool false => Some "false"
  | VNum r => Some r
  | VStr s => Some s
  | VArr items =>
      option_map (join ",")
        (sequence (map (fun x => match x with
                                 | VUndefined | VNull => Some ""
                                 | _ => to_string x
                                 end) items))
  | VObj fields =>
      match assoc "toString" fields with
      | Some _ => None
      | None => Some "[object Object]"
      end
  end.

(** [v.name] for [v] neither [null] nor [undefined]. *)
Definition get (v : Value) (name : string) : Value :=
  match v with
  | VObj fields =>
      match assoc name fields with
      | Some x => x
      | None => VUndefined
      end
  | _ => VUndefined
  end.

Definition nullish (v : Value) : bool :=
  match v with
  | VUndefined | VNull => true
  | _ => false
  end.

(** [v?.name] *)
Definition get_opt (v : Value) (name : string) : Value :=
  if nullish v then VUndefined else get v name.

(** [v === 'literal'] *)
Definition is_string (v : Value) (literal : string) : bool :=
  match v with
  | VStr s => String.eqb s literal
  | _ => false
  end.

(** [a || b] *)
Definition or_else (a b : Value) : Value :=
  if truthy a then a else b.

End Js.

(** ** [encodeURIComponent]

    Strings are sequences of bytes, read as the UTF-8 form of the
    JavaScript string (query strings decoded by the server are well-formed,
    so the [URIError] of a lone surrogate does not arise).  Every byte
    outside the unreserved set becomes [%XX] in upper-case hexadecimal. *)

Module Uri.

Definition in_range (lo hi c : ascii) : bool :=
  (N_of_ascii lo <=? N_of_ascii c)%N && (N_of_ascii c <=? N_of_ascii hi)%N.

Definition unreserved (c : ascii) : bool :=
  in_range "A" "Z" c || in_range "a" "z" c || in_range "0" "9" c
  || existsb (Ascii.eqb c) ["-"; "_"; "."; "!"; "~"; "*"; "'"; "("; ")"]%char.

Definition hex_digit (n : N) : ascii :=
  match n with
  | 0 => "0" | 1 => "1" | 2 => "2" | 3 => "3" | 4 => "4" | 5 => "5"
  | 6 => "6" | 7 => "7" | 8 => "8" | 9 => "9" | 10 => "A" | 11 => "B"
  | 12 => "C" | 13 => "D" | 14 => "E" | _ => "F"
  end%N%char.

Definition percent (c : ascii) : string :=
  let n := N_of_ascii c in
  String "%" (String (hex_digit (n / 16)) (String (hex_digit (n mod 16)) "")).

Fixpoint encodeURIComponent (s : string) : string :=
  match s with
  | EmptyString => ""
  | String c rest =>
      (if unreserved c then String c "" else percent c)
      ++ encodeURIComponent rest
  end.

End Uri.

Example encode_plain : Uri.encodeURIComponent "cat" = "cat".
Proof. reflexivity. Qed.

Example encode_reserved :
  Uri.encodeURIComponent "a b&c=d/e" = "a%20b%26c%3Dd%2Fe".
Proof. reflexivity. Qed.

Example to_string_array :
  Js.to_string (Js.VArr [Js.VNum "1"; Js.VNull; Js.VStr "x"]) = Some "1,,x".
Proof. reflexivity. Qed.

(** ** Effects: upstream calls, their record, and exceptions *)

Import Js.

Record AxiosResponse : Type := { status : N; data : Value }.

(** A thrown value.  [response] is set on the errors [axios] raises for an
    answer outside 2xx, and on nothing else. *)
Record JsError : Type := { message : string; response : option AxiosResponse }.

(** [new Error(message)] *)
Definition Error (msg : string) : JsError :=
  {| message := msg; response := None |}.

(** A request handed to [axios]: [axios.post(url, params, {headers})] or
    [axios.get(url, {headers})]. *)
Inductive NetCall : Type :=
| Post (url : string) (params : list (string * string))
       (headers : list (string * string))
| Get (url : string) (headers : list (string * string)).

(** What comes back from the network: an HTTP answer, or no answer at all
    (DNS, connection, timeout) with the reason the transport gives. *)
Inductive HttpReply : Type :=
| Replied (code : N) (payload : Value)
| NoReply (reason : string).

Definition Upstream : Type := NetCall -> HttpReply.

Inductive Outcome (A : Type) : Type :=
| Returned (a : A)
| Threw (e : JsError).
Arguments Returned {A} a.
Arguments Threw {A} e.

(** An asynchronous computation: what it yields and the calls it issued,
    oldest first. *)
Definition M (A : Type) : Type := Upstream -> Outcome A * list NetCall.

Definition ret {A : Type} (a : A) : M A := fun _ => (Returned a, []).

Definition throw {A : Type} (e : JsError) : M A := fun _ => (Threw e, []).

Definition bind {A B : Type} (m : M A) (k : A -> M B) : M B :=
  fun up =>
    match m up with
    | (Returned a, calls) =>
        let (o, calls') := k a up in (o, (calls ++ calls')%list)
    | (Threw e, calls) => (Threw e, calls)
    end.

(** [try { body } catch (error) { handler }] *)
Definition try_catch {A : Type} (body : M A) (handler : JsError -> M A) : M A :=
  fun up =>
    match body up with
    | (Returned a, calls) => (Returned a, calls)
    | (Threw e, calls) =>
        let (o, calls') := handler e up in (o, (calls ++ calls')%list)
    end.

Notation "x <- m ;; k" := (bind m (fun x => k))
  (at level 61, m at next level, right associativity).

Definition decimal (n : N) : string :=
  NilEmpty.string_of_uint (N.to_uint n).

Definition is_2xx (code : N) : bool := ((200 <=? code) && (code <? 300))%N.

(** How [axios] settles a request with its default [validateStatus]: an
    answer in 2xx resolves; any other answer rejects with the response
    attached; no answer rejects without one. *)
Definition settle (r : HttpReply) : Outcome AxiosResponse :=
  match r with
  | Replied code payload =>
      if is_2xx code then Returned {| status := code; data := payload |}
      else Threw {| message := "Request failed with status code " ++ decimal code;
                    response := Some {| status := code; data := payload |} |}
  | NoReply reason => Threw {| message := reason; response := None |}
  end.

Definition axios (call : NetCall) : M AxiosResponse :=
  fun up => (settle (up call), [call]).

(** [v.name], which throws on [null] and [undefined]. *)
Definition member (v : Value) (name : string) : M Value :=
  if nullish v then
    throw (Error ("Cannot read properties of "
                  ++ match to_string v with Some s => s | None => "" end
                  ++ " (reading '" ++ name ++ "')"))
  else ret (get v name).

(** The substitution of a template literal. *)
Definition template (v : Value) : M string :=
  match to_string v with
  | Some s => ret s
  | None => throw (Error "Cannot convert object to primitive value")
  end.

(** The substitution of a query value into a template literal. *)
Definition q_template (v : QVal) : M string :=
  match q_to_string v with
  | Some s => ret s
  | None => throw (Error "Cannot convert object to primitive value")
  end.

(** [console.error(text)]: the text is computed, the output is not kept. *)
Definition console_error (text : string) : M unit := ret tt.

(** [error.response?.data] *)
Definition response_data (error : JsError) : Value :=
  match response error with
  | Some r => data r
  | None => VUndefined
  end.

(** [error.response?.status === code] *)
Definition status_is (error : JsError) (code : N) : bool :=
  match response error with
  | Some r => (status r =? code)%N
  | None => false
  end.

(** [error.response?.status || fallback] *)
Definition status_or (error : JsError) (fallback : N) : N :=
  match response error with
  | Some r => if (status r =? 0)%N then fallback else status r
  | None => fallback
  end.

(** ** The server *)

(** [process.env]: a variable is unset or holds a string. *)
Record Env : Type := {
  OPENVERSE_CLIENT_ID : option string;
  OPENVERSE_CLIENT_SECRET : option string
}.

Definition CLIENT_ID (env : Env) : option string := OPENVERSE_CLIENT_ID env.
Definition CLIENT_SECRET (env : Env) : option string := OPENVERSE_CLIENT_SECRET env.

Definition env_truthy (v : option string) : bool :=
  match v with
  | Some s => negb (String.eqb s "")
  | None => false
  end.

(** [URLSearchParams.append] converts its argument to a string. *)
Definition env_to_string (v : option string) : string :=
  match v with
  | Some s => s
  | None => "undefined"
  end.

Definition validLicenses : list string :=
  ["CC0"; "BY"; "BY-SA"; "BY-NC"; "BY-ND"; "BY-NC-SA"; "BY-NC-ND"].

Definition token_url : string := "https://api.openverse.org/v1/auth_tokens/token/".

(** The request of [getAccessToken]: the three form fields appended to the
    [URLSearchParams], posted as a form. *)
Definition token_call (env : Env) : NetCall :=
  Post token_url
       [("client_id", env_to_string (CLIENT_ID env));
        ("client_secret", env_to_string (CLIENT_SECRET env));
        ("grant_type", "client_credentials")]
       [("Content-Type", "application/x-www-form-urlencoded")].

Definition getAccessToken (env : Env) : M Value :=
  if negb (env_truthy (CLIENT_ID env)) || negb (env_truthy (CLIENT_SECRET env)) then
    throw (Error "Missing OPENVERSE_CLIENT_ID or OPENVERSE_CLIENT_SECRET in .env file")
  else
    try_catch
      (response <- axios (token_call env) ;;
       member (data response) "access_token")
      (fun error =>
         let errorMessage :=
           if status_is error 400
              && is_string (get_opt (response_data error) "error") "unsupported_grant_type"
           then "Unsupported grant_type. Contact openverse@wordpress.org for the correct grant_type."
           else if status_is error 401
           then "Authentication failed: Invalid client_id or client_secret"
           else if status_is error 429
           then "Rate limit exceeded. Please try again later."
           else "Failed to obtain access token" in
         throw (Error errorMessage)).

(** [req.query], destructured by the handler. *)
Record Query : Type := { q : QVal; mediaType : QVal; license : QVal }.

(** The response object: [res.status] sets the code, [res.json] sends. *)
Record Res : Type := { statusCode : N; sent : option Value }.

Definition res : Res := {| statusCode := 200; sent := None |}.

Definition res_status (code : N) (r : Res) : Res :=
  {| statusCode := code; sent := sent r |}.

Definition res_json (v : Value) (r : Res) : Res :=
  {| statusCode := statusCode r; sent := Some v |}.

(** The object literal [{ error: message }]. *)
Definition error_object (msg : string) : Value := VObj [("error", VStr msg)].

Definition validMediaTypes : list string := ["images"; "audio"].

(** The template literal of [apiUrl]; [None] when one of its conversions
    throws. *)
Definition apiUrl (mediaType q apiLicense : QVal) : option string :=
  match q_to_string mediaType,
        q_to_string q,
        (if q_truthy apiLicense
         then option_map (append "&license=") (q_to_string apiLicense)
         else Some "")
  with
  | Some type, Some text, Some suffix =>
      Some ("https://api.openverse.org/v1/" ++ type
            ++ "?q=" ++ Uri.encodeURIComponent text ++ suffix)
  | _, _, _ => None
  end.

(** The request of the search handler, with its bearer token. *)
Definition search_call (url bearer : string) : NetCall :=
  Get url [("Authorization", "Bearer " ++ bearer)].

(** The [catch] block of the search handler. *)
Definition relay_error (error : JsError) : M Res :=
  errorMessage <-
    (if status_is error 400 then
       detail <- template (or_else (get_opt (response_data error) "detail")
                                   (VStr "Invalid parameters, possibly license")) ;;
       ret ("Bad request: " ++ detail)
     else if status_is error 401 then
       ret "Authentication failed: Invalid or expired access token"
     else if status_is error 429 then
       ret "Rate limit exceeded. Please try again later."
     else ret (message error)) ;;
  ret (res_json (error_object errorMessage)
                (res_status (status_or error 500) res)).

(** The [try]/[catch] block of the search handler: token, upstream search,
    relay. *)
Definition forward (env : Env) (url : string) : M Res :=
  try_catch
    (accessToken <- getAccessToken env ;;
     bearer <- template accessToken ;;
     response <- axios (search_call url bearer) ;;
     ret (res_json (data response) res))
    relay_error.

(** [app.get('/api/search', ...)] *)
Definition api_search (env : Env) (query : Query) : M Res :=
  if negb (includes validMediaTypes (mediaType query)) then
    shown <- q_template (mediaType query) ;;
    _ <- console_error ("Invalid mediaType: " ++ shown) ;;
    ret (res_json (error_object ("Invalid mediaType. Must be one of: "
                                 ++ join ", " validMediaTypes))
                  (res_status 400 res))
  else
    let apiLicense := license query in
    if q_truthy (license query) && negb (includes validLicenses (license query)) then
      shown <- q_template (license query) ;;
      _ <- console_error ("Invalid license: " ++ shown) ;;
      ret (res_json (error_object ("Invalid license. Must be one of: "
                                   ++ join ", " validLicenses))
                    (res_status 400 res))
    else
      match apiUrl (mediaType query) (q query) apiLicense with
      | Some url => forward env url
      | None => throw (Error "Cannot convert object to primitive value")
      end.

(** [app.get('/api/health', ...)] *)
Definition api_health (env : Env) (query : Query) : M Res :=
  ret (res_json (VObj [("status", VStr "OK"); ("message", VStr "Server is running")])
                res).

(** The routes registered on [app]. *)
Definition app_get (path : string) : option (Env -> Query -> M Res) :=
  if String.eqb path "/api/search" then Some api_search
  else if String.eqb path "/api/health" then Some api_health
  else None.

(** What the caller gets and what went out on the network. *)
Definition answer {A : Type} (m : M A) (up : Upstream) : Outcome A := fst (m up).
Definition calls {A : Type} (m : M A) (up : Upstream) : list NetCall := snd (m up).

(** *** Running the handlers on small inputs *)

Module Demo.

Definition env : Env :=
  {| OPENVERSE_CLIENT_ID := Some "id"; OPENVERSE_CLIENT_SECRET := Some "secret" |}.

Definition cat_images : Query :=
  {| q := QStr "cat"; mediaType := QStr "images"; license := QUndef |}.

Definition results : Value :=
  VObj [("result_count", VNum "1"); ("results", VArr [VObj [("title", VStr "Cat")]])].

Definition token_ok : HttpReply := Replied 200 (VObj [("access_token", VStr "t0k")]).

(** An upstream described by its answer to the token request and its
    answer to any search. *)
Definition upstream (token search : HttpReply) : Upstream :=
  fun call =>
    match call with
    | Post _ _ _ => token
    | Get _ _ => search
    end.

End Demo.

Example demo_success :
  api_search Demo.env Demo.cat_images (Demo.upstream Demo.token_ok (Replied 200 Demo.results))
  = (Returned {| statusCode := 200; sent := Some Demo.results |},
     [token_call Demo.env;
      Get "https://api.openverse.org/v1/images?q=cat" [("Authorization", "Bearer t0k")]]).
Proof. reflexivity. Qed.

Example demo_search_503 :
  answer (api_search Demo.env Demo.cat_images)
         (Demo.upstream Demo.token_ok (Replied 503 (VStr "busy")))
  = Returned {| statusCode := 503;
                sent := Some (error_object "Request failed with status code 503") |}.
Proof. reflexivity. Qed.

Example demo_no_token_field :
  calls (api_search Demo.env Demo.cat_images)
        (Demo.upstream (Replied 200 (VObj [])) (Replied 200 Demo.results))
  = [token_call Demo.env;
     Get "https://api.openverse.org/v1/images?q=cat" [("Authorization", "Bearer undefined")]].
Proof. reflexivity. Qed.

(** ** Properties *)

(** *** Validation *)

Definition mediaType_rejection : Res :=
  {| statusCode := 400;
     sent := Some (error_object "Invalid mediaType. Must be one of: images, audio") |}.

Definition license_rejection : Res :=
  {| statusCode := 400;
     sent := Some (error_object
       "Invalid license. Must be one of: CC0, BY, BY-SA, BY-NC, BY-ND, BY-NC-SA, BY-NC-ND") |}.

Lemma includes_spec (l : list string) (v : QVal) :
  includes l v = true <-> exists s, v = QStr s /\ In s l.
Proof.
  destruct v as [|s|items|fields]; simpl;
    try (split; [discriminate | intros (s0 & H & _); discriminate]).
  rewrite existsb_exists. split.
  - intros (x & Hin & Heq). apply String.eqb_eq in Heq. subst x. eauto.
  - intros (s0 & H & Hin). injection H as <-. exists s. split; trivial.
    apply String.eqb_refl.
Qed.

Lemma includes_false (l : list string) (v : QVal) :
  (forall s, In s l -> v <> QStr s) -> includes l v = false.
Proof.
  intros H. destruct (includes l v) eqn:E; trivial.
  apply includes_spec in E. destruct E as (s & -> & Hin).
  exfalso. exact (H s Hin eq_refl).
Qed.

Lemma q_truthy_spec (v : QVal) :
  q_truthy v = true <-> v <> QUndef /\ v <> QStr "".
Proof.
  destruct v as [|s|items|fields]; simpl.
  - split; [discriminate | intros [H _]; contradiction].
  - rewrite negb_true_iff, String.eqb_neq. split.
    + intros H. split; [discriminate | congruence].
    + intros [_ H] ->. contradiction.
  - split; [split; discriminate | trivial].
  - split; [split; discriminate | trivial].
Qed.

(** A request the two checks let through. *)
Definition passes_validation (query : Query) : bool :=
  includes validMediaTypes (mediaType query)
  && (negb (q_truthy (license query)) || includes validLicenses (license query)).

Definition type_error : JsError :=
  Error "Cannot convert object to primitive value".

(** Past the two checks the handler builds the URL; that is where it ends
    when a conversion throws. *)
Lemma api_search_validated (env : Env) (query : Query) :
  passes_validation query = true ->
  api_search env query
  = match apiUrl (mediaType query) (q query) (license query) with
    | Some url => forward env url
    | None => throw type_error
    end.
Proof.
  unfold passes_validation, api_search. intros H.
  apply andb_true_iff in H. destruct H as [Hm Hl]. rewrite Hm. simpl.
  destruct (q_truthy (license query)); simpl in *; [rewrite Hl|]; reflexivity.
Qed.

Lemma api_search_forwards (env : Env) (query : Query) (url : string) :
  passes_validation query = true ->
  apiUrl (mediaType query) (q query) (license query) = Some url ->
  api_search env query = forward env url.
Proof.
  intros Hv Hu. rewrite (api_search_validated env query Hv), Hu. reflexivity.
Qed.

(** The URL of a request that passed the two checks, when [q] converts. *)
Lemma apiUrl_validated (mt : string) (qv lic : QVal) (text : string) :
  lic = QUndef \/ lic = QStr "" \/ (exists l, lic = QStr l /\ In l validLicenses) ->
  q_to_string qv = Some text ->
  apiUrl (QStr mt) qv lic
  = Some ("https://api.openverse.org/v1/" ++ mt
          ++ "?q=" ++ Uri.encodeURIComponent text
          ++ match lic with
             | QStr "" => ""
             | QStr l => "&license=" ++ l
             | _ => ""
             end).
Proof.
  intros Hl Hq. unfold apiUrl. cbn [q_to_string]. rewrite Hq.
  destruct Hl as [-> | [-> | (l & -> & Hin)]]; [reflexivity | reflexivity |].
  simpl in Hin.
  repeat (destruct Hin as [<- | Hin]; [reflexivity|]). contradiction.
Qed.

Lemma passes_validation_spec (query : Query) :
  passes_validation query = true <->
  (mediaType query = QStr "images" \/ mediaType query = QStr "audio")
  /\ (license query = QUndef \/ license query = QStr ""
      \/ exists l, license query = QStr l /\ In l validLicenses).
Proof.
  unfold passes_validation. rewrite andb_true_iff, orb_true_iff. split.
  - intros [Hm Hl]. split.
    + apply includes_spec in Hm. destruct Hm as (s & -> & [<- | [<- | []]]); tauto.
    + destruct Hl as [Hl | Hl].
      * apply negb_true_iff in Hl.
        destruct (license query) as [|s| |]; try discriminate; [tauto|].
        simpl in Hl. apply negb_false_iff, String.eqb_eq in Hl. subst. tauto.
      * apply includes_spec in Hl. tauto.
  - intros [Hm Hl]. split.
    + destruct Hm as [-> | ->]; reflexivity.
    + destruct Hl as [-> | [-> | Hl]]; [left; reflexivity | left; reflexivity |].
      right. apply includes_spec. exact Hl.
Qed.

(** A request that passed the two checks gets a URL exactly when its [q]
    converts. *)
Lemma apiUrl_built_iff (query : Query) :
  passes_validation query = true ->
  (exists url, apiUrl (mediaType query) (q query) (license query) = Some url)
  <-> (exists text, q_to_string (q query) = Some text).
Proof.
  intros Hv. apply passes_validation_spec in Hv. destruct Hv as [Hm Hl].
  split.
  - intros (url & Hu). unfold apiUrl in Hu.
    destruct (q_to_string (q query)) as [text|]; [eauto|].
    destruct (q_to_string (mediaType query)); discriminate.
  - intros (text & Hq).
    destruct Hm as [Hm | Hm]; rewrite Hm;
      rewrite (apiUrl_validated _ (q query) (license query) text Hl Hq); eauto.
Qed.

(** *** The token provider *)

Definition missing_credentials : string :=
  "Missing OPENVERSE_CLIENT_ID or OPENVERSE_CLIENT_SECRET in .env file".

Lemma getAccessToken_unconfigured (env : Env) (up : Upstream) :
  env_truthy (CLIENT_ID env) && env_truthy (CLIENT_SECRET env) = false ->
  getAccessToken env up = (Threw (Error missing_credentials), []).
Proof.
  unfold getAccessToken. intros H.
  rewrite <- negb_andb, H. reflexivity.
Qed.

(** Whatever [getAccessToken] throws is a plain [Error], without a response. *)
Lemma getAccessToken_throws_plain (env : Env) (up : Upstream) e cs :
  getAccessToken env up = (Threw e, cs) -> response e = None.
Proof.
  unfold getAccessToken.
  destruct (negb (env_truthy (CLIENT_ID env)) || negb (env_truthy (CLIENT_SECRET env))).
  - unfold throw. intros H. injection H as <- _. reflexivity.
  - unfold try_catch, bind, axios, member, throw, ret.
    destruct (settle (up (token_call env))) as [r|err].
    + destruct (nullish (data r)); simpl; intros H;
        [injection H as <- _; reflexivity | discriminate].
    + simpl. intros H. injection H as <- _. reflexivity.
Qed.

(** A failure of the token provider reaches the caller as a 500 carrying the
    provider's message; the upstream search is not attempted. *)
Lemma forward_token_failure (env : Env) (url : string) (up : Upstream) e cs :
  getAccessToken env up = (Threw e, cs) ->
  forward env url up
  = (Returned {| statusCode := 500; sent := Some (error_object (message e)) |}, cs).
Proof.
  intros H. pose proof (getAccessToken_throws_plain env up e cs H) as Hr.
  unfold forward, try_catch. unfold bind at 1. rewrite H.
  unfold relay_error, bind, status_is, status_or. rewrite Hr. simpl.
  rewrite app_nil_r. reflexivity.
Qed.

Lemma forward_token_success (env : Env) (url : string) (up : Upstream)
      token bearer cs :
  getAccessToken env up = (Returned token, cs) ->
  to_string token = Some bearer ->
  forward env url up
  = match settle (up (search_call url bearer)) with
    | Returned response =>
        (Returned {| statusCode := 200; sent := Some (data response) |},
         (cs ++ [search_call url bearer])%list)
    | Threw error =>
        let (o, cs') := relay_error error up in
        (o, ((cs ++ [search_call url bearer]) ++ cs')%list)
    end.
Proof.
  intros H Hs. unfold forward, try_catch, bind. rewrite H.
  unfold template. rewrite Hs. unfold ret. simpl.
  unfold axios.
  destruct (settle (up (search_call url bearer))) as [r|err]; simpl;
    reflexivity.
Qed.

(** *** The search route *)

(** C1.  A request whose [mediaType] is [images] or [audio] and whose
    [license], if supplied, is one of the valid ones, for which the token is
    obtained and the upstream search, sent to the URL built from the query,
    answers in 2xx, is answered with status 200 and the upstream body, as it
    came. *)
Theorem search_success_relays_body
        (env : Env) (up : Upstream) (query : Query) (url : string)
        (token : Value) (bearer : string) (code : N) (payload : Value) :
  mediaType query = QStr "images" \/ mediaType query = QStr "audio" ->
  license query = QUndef \/ (exists l, license query = QStr l /\ In l validLicenses) ->
  apiUrl (mediaType query) (q query) (license query) = Some url ->
  answer (getAccessToken env) up = Returned token ->
  to_string token = Some bearer ->
  up (search_call url bearer) = Replied code payload ->
  (200 <= code < 300)%N ->
  api_search env query up
  = (Returned {| statusCode := 200; sent := Some payload |},
     (calls (getAccessToken env) up ++ [search_call url bearer])%list).
Proof.
  intros Hm Hl Hu Htok Hb Hup Hcode.
  rewrite (api_search_forwards env query url); [| |exact Hu].
  - unfold answer, calls in *.
    destruct (getAccessToken env up) as [o cs] eqn:E. simpl in Htok. subst o.
    rewrite (forward_token_success env _ up token bearer cs E Hb), Hup.
    unfold settle, is_2xx.
    replace ((200 <=? code)%N) with true by (symmetry; apply N.leb_le; lia).
    replace ((code <? 300)%N) with true by (symmetry; apply N.ltb_lt; lia).
    reflexivity.
  - apply passes_validation_spec. split; [exact Hm|].
    destruct Hl as [Hl | Hl]; tauto.
Qed.

Lemma search_success_relays_body_witness :
  api_search Demo.env Demo.cat_images
             (Demo.upstream Demo.token_ok (Replied 200 Demo.results))
  = (Returned {| statusCode := 200; sent := Some Demo.results |},
     [token_call Demo.env;
      search_call "https://api.openverse.org/v1/images?q=cat" "t0k"]).
Proof.
  apply (search_success_relays_body Demo.env
           (Demo.upstream Demo.token_ok (Replied 200 Demo.results))
           Demo.cat_images "https://api.openverse.org/v1/images?q=cat"
           (VStr "t0k") "t0k" 200%N Demo.results).
  - left. reflexivity.
  - left. reflexivity.
  - reflexivity.
  - reflexivity.
  - reflexivity.
  - reflexivity.
  - lia.
Defined.

(** A request whose [mediaType] is neither [images] nor [audio], the
    absent and the empty one included, and converts to text for the log, is
    answered with status 400 and an error that names the two allowed
    values; nothing goes out on the network. *)
Lemma invalid_mediaType_rejected
      (env : Env) (up : Upstream) (query : Query) (shown : string) :
  mediaType query <> QStr "images" ->
  mediaType query <> QStr "audio" ->
  q_to_string (mediaType query) = Some shown ->
  api_search env query up = (Returned mediaType_rejection, []).
Proof.
  intros Hi Ha Hs. unfold api_search.
  rewrite includes_false.
  - cbn [negb]. unfold q_template, bind. rewrite Hs. reflexivity.
  - intros s [<- | [<- | []]]; assumption.
Qed.

Example absent_mediaType_rejected :
  api_search Demo.env {| q := QStr "cat"; mediaType := QUndef; license := QUndef |}
             (Demo.upstream Demo.token_ok (Replied 200 Demo.results))
  = (Returned mediaType_rejection, []).
Proof.
  apply (invalid_mediaType_rejected _ _ _ "undefined"); simpl;
    reflexivity || discriminate.
Qed.

(** C2 is what the handler is written to do, and the handler misses it in
    one case.  A [mediaType] that is an object with an own property
    [toString] (as [?mediaType[toString]=x] gives) is not one of the two
    values, but the line that logs it converts it to text and throws: the
    handler ends without the 400.  No network call is made on this path
    either. *)
Theorem unconvertible_mediaType_escapes :
  let query := {| q := QStr "cat";
                  mediaType := QObj [("toString", QStr "x")];
                  license := QUndef |} in
  let up := Demo.upstream Demo.token_ok (Replied 200 Demo.results) in
  mediaType query <> QStr "images"
  /\ mediaType query <> QStr "audio"
  /\ api_search Demo.env query up
     = (Threw (Error "Cannot convert object to primitive value"), [])
  /\ forall r, answer (api_search Demo.env query) up <> Returned r.
Proof.
  repeat split; discriminate.
Qed.

Example empty_mediaType_rejected :
  api_search Demo.env {| q := QStr "cat"; mediaType := QStr ""; license := QUndef |}
             (Demo.upstream Demo.token_ok (Replied 200 Demo.results))
  = (Returned mediaType_rejection, []).
Proof. reflexivity. Qed.

Example repeated_mediaType_rejected :
  api_search Demo.env
             {| q := QStr "cat"; mediaType := QArr [QStr "images"; QStr "images"];
                license := QUndef |}
             (Demo.upstream Demo.token_ok (Replied 200 Demo.results))
  = (Returned mediaType_rejection, []).
Proof. reflexivity. Qed.

(** C3, as stated, fails: an empty [license] is present in the query and is
    not one of the seven values, yet the request is not rejected; it goes on
    to the token endpoint and the upstream search. *)
Lemma empty_license_not_rejected :
  let query := {| q := QStr "cat"; mediaType := QStr "images"; license := QStr "" |} in
  let up := Demo.upstream Demo.token_ok (Replied 200 Demo.results) in
  license query <> QUndef
  /\ (forall l, In l validLicenses -> license query <> QStr l)
  /\ api_search Demo.env query up <> (Returned license_rejection, [])
  /\ calls (api_search Demo.env query) up
     = [token_call Demo.env;
        search_call "https://api.openverse.org/v1/images?q=cat" "t0k"].
Proof.
  repeat split.
  - discriminate.
  - intros l Hin. simpl in Hin.
    repeat (destruct Hin as [<- | Hin]; [discriminate|]). contradiction.
  - discriminate.
Qed.

(** C3, amended.  A request with a valid [mediaType] whose [license] is
    present, not empty, not one of [CC0], [BY], [BY-SA], [BY-NC], [BY-ND],
    [BY-NC-SA], [BY-NC-ND], and converts to text is answered with status
    400 and a message that lists the seven; neither the token request nor
    the search is issued. *)
Theorem invalid_license_rejected
        (env : Env) (up : Upstream) (query : Query) (shown : string) :
  mediaType query = QStr "images" \/ mediaType query = QStr "audio" ->
  license query <> QUndef ->
  license query <> QStr "" ->
  (forall l, In l ["CC0"; "BY"; "BY-SA"; "BY-NC"; "BY-ND"; "BY-NC-SA"; "BY-NC-ND"] ->
             license query <> QStr l) ->
  q_to_string (license query) = Some shown ->
  api_search env query up = (Returned license_rejection, []).
Proof.
  intros Hm Hu He Hl Hs. unfold api_search.
  replace (includes validMediaTypes (mediaType query)) with true
    by (destruct Hm as [-> | ->]; reflexivity).
  simpl.
  replace (q_truthy (license query)) with true
    by (symmetry; apply q_truthy_spec; split; assumption).
  rewrite (includes_false validLicenses (license query) Hl).
  cbn [negb andb]. unfold q_template, bind. rewrite Hs. reflexivity.
Qed.

Lemma invalid_license_rejected_witness :
  api_search Demo.env
             {| q := QStr "cat"; mediaType := QStr "audio"; license := QStr "GPL" |}
             (Demo.upstream Demo.token_ok (Replied 200 Demo.results))
  = (Returned license_rejection, []).
Proof.
  apply (invalid_license_rejected _ _ _ "GPL"); simpl.
  - right. reflexivity.
  - discriminate.
  - discriminate.
  - intros l Hin.
    repeat (destruct Hin as [<- | Hin]; [discriminate|]). contradiction.
  - reflexivity.
Defined.

Example repeated_license_rejected :
  api_search Demo.env
             {| q := QStr "cat"; mediaType := QStr "audio";
                license := QArr [QStr "BY"; QStr "BY"] |}
             (Demo.upstream Demo.token_ok (Replied 200 Demo.results))
  = (Returned license_rejection, []).
Proof. reflexivity. Qed.

(** *** Failures of the token endpoint *)

Definition credentials (id secret : string) : Env :=
  {| OPENVERSE_CLIENT_ID := Some id; OPENVERSE_CLIENT_SECRET := Some secret |}.

Lemma getAccessToken_configured (id secret : string) (up : Upstream) :
  id <> "" -> secret <> "" ->
  getAccessToken (credentials id secret) up
  = try_catch
      (response <- axios (token_call (credentials id secret)) ;;
       member (data response) "access_token")
      (fun error =>
         throw (Error
           (if status_is error 400
               && is_string (get_opt (response_data error) "error") "unsupported_grant_type"
            then "Unsupported grant_type. Contact openverse@wordpress.org for the correct grant_type."
            else if status_is error 401
            then "Authentication failed: Invalid client_id or client_secret"
            else if status_is error 429
            then "Rate limit exceeded. Please try again later."
            else "Failed to obtain access token")))
      up.
Proof.
  intros Hi Hs. unfold getAccessToken. simpl.
  apply String.eqb_neq in Hi, Hs. rewrite Hi, Hs. reflexivity.
Qed.

(** The token request was made, and [getAccessToken] threw [new Error(msg)]. *)
Definition token_fails (env : Env) (up : Upstream) (msg : string) : Prop :=
  getAccessToken env up = (Threw (Error msg), [token_call env]).

Lemma token_rejected (id secret : string) (up : Upstream) (code : N) (payload : Value) :
  id <> "" -> secret <> "" ->
  up (token_call (credentials id secret)) = Replied code payload ->
  is_2xx code = false ->
  token_fails (credentials id secret) up
    (if (code =? 400)%N && is_string (get_opt payload "error") "unsupported_grant_type"
     then "Unsupported grant_type. Contact openverse@wordpress.org for the correct grant_type."
     else if (code =? 401)%N
     then "Authentication failed: Invalid client_id or client_secret"
     else if (code =? 429)%N
     then "Rate limit exceeded. Please try again later."
     else "Failed to obtain access token").
Proof.
  intros Hi Hs Hup H2. unfold token_fails.
  rewrite (getAccessToken_configured id secret up Hi Hs).
  unfold try_catch, bind, axios. rewrite Hup. unfold settle. rewrite H2.
  reflexivity.
Qed.

(** C5.  With both credentials set, a failing token request is turned into
    an error message as follows: status 400 with the upstream error code
    [unsupported_grant_type] gives the instruction to contact Openverse;
    status 401 gives the invalid-credentials message; status 429 gives the
    rate-limit message; any other failure (no answer from the network, any
    other status outside 2xx, a 400 with another error code, an answer
    without a body to read the token from) gives the generic message. *)
Theorem token_failure_messages (id secret : string) (up : Upstream) :
  id <> "" -> secret <> "" ->
  let env := credentials id secret in
  (forall payload,
      up (token_call env) = Replied 400 payload ->
      get_opt payload "error" = VStr "unsupported_grant_type" ->
      token_fails env up
        "Unsupported grant_type. Contact openverse@wordpress.org for the correct grant_type.")
  /\ (forall payload,
         up (token_call env) = Replied 401 payload ->
         token_fails env up "Authentication failed: Invalid client_id or client_secret")
  /\ (forall payload,
         up (token_call env) = Replied 429 payload ->
         token_fails env up "Rate limit exceeded. Please try again later.")
  /\ (forall reason,
         up (token_call env) = NoReply reason ->
         token_fails env up "Failed to obtain access token")
  /\ (forall code payload,
         up (token_call env) = Replied code payload ->
         ~ (200 <= code < 300)%N ->
         code <> 401%N -> code <> 429%N ->
         ~ (code = 400%N /\ get_opt payload "error" = VStr "unsupported_grant_type") ->
         token_fails env up "Failed to obtain access token")
  /\ (forall code payload,
         up (token_call env) = Replied code payload ->
         (200 <= code < 300)%N ->
         payload = VNull \/ payload = VUndefined ->
         token_fails env up "Failed to obtain access token").
Proof.
  intros Hi Hs env. subst env. repeat split.
  - intros payload Hup Herr.
    pose proof (token_rejected id secret up 400 payload Hi Hs Hup eq_refl) as H.
    rewrite Herr in H. exact H.
  - intros payload Hup.
    exact (token_rejected id secret up 401 payload Hi Hs Hup eq_refl).
  - intros payload Hup.
    exact (token_rejected id secret up 429 payload Hi Hs Hup eq_refl).
  - intros reason Hup. unfold token_fails.
    rewrite (getAccessToken_configured id secret up Hi Hs).
    unfold try_catch, bind, axios. rewrite Hup. reflexivity.
  - intros code payload Hup H2 H401 H429 H400.
    assert (is_2xx code = false) as E2.
    { unfold is_2xx. apply andb_false_iff.
      destruct (N.leb_spec 200 code); [right|left; reflexivity].
      apply N.ltb_ge. lia. }
    pose proof (token_rejected id secret up code payload Hi Hs Hup E2) as H.
    apply N.eqb_neq in H401, H429. rewrite H401, H429 in H.
    destruct (N.eqb_spec code 400) as [->|_]; simpl in H; [|exact H].
    destruct (is_string (get_opt payload "error") "unsupported_grant_type") eqn:E;
      [|exact H].
    exfalso. apply H400. split; [reflexivity|].
    destruct (get_opt payload "error"); try discriminate.
    simpl in E. apply String.eqb_eq in E. subst. reflexivity.
  - intros code payload Hup H2 Hnull. unfold token_fails.
    rewrite (getAccessToken_configured id secret up Hi Hs).
    unfold try_catch, bind, axios. rewrite Hup. unfold settle, is_2xx.
    replace ((200 <=? code)%N) with true by (symmetry; apply N.leb_le; lia).
    replace ((code <? 300)%N) with true by (symmetry; apply N.ltb_lt; lia).
    destruct Hnull as [-> | ->]; reflexivity.
Qed.

Lemma token_failure_messages_witness :
  token_fails Demo.env
    (Demo.upstream (Replied 400 (VObj [("error", VStr "unsupported_grant_type")]))
                   (Replied 200 Demo.results))
    "Unsupported grant_type. Contact openverse@wordpress.org for the correct grant_type."
  /\ token_fails Demo.env
       (Demo.upstream (Replied 503 (VStr "down")) (Replied 200 Demo.results))
       "Failed to obtain access token".
Proof.
  split.
  - apply (proj1 (token_failure_messages "id" "secret"
                    (Demo.upstream
                       (Replied 400 (VObj [("error", VStr "unsupported_grant_type")]))
                       (Replied 200 Demo.results))
                    ltac:(discriminate) ltac:(discriminate))
                 (VObj [("error", VStr "unsupported_grant_type")]));
      reflexivity.
  - pose proof (token_failure_messages "id" "secret"
                  (Demo.upstream (Replied 503 (VStr "down")) (Replied 200 Demo.results))
                  ltac:(discriminate) ltac:(discriminate)) as H.
    apply (proj1 (proj2 (proj2 (proj2 (proj2 H)))) 503%N (VStr "down")).
    + reflexivity.
    + lia.
    + discriminate.
    + discriminate.
    + intros [E _]. discriminate E.
Defined.

(** C4, as stated, fails: when the token endpoint answers 401 the caller of
    [/api/search?q=cat&mediaType=images] gets the authentication-failure
    message, but under status 500; the status of the token endpoint is not
    handed on. *)
Lemma token_401_not_relayed :
  let up := Demo.upstream (Replied 401 (VObj [("detail", VStr "Invalid client")]))
                          (Replied 200 Demo.results) in
  answer (api_search Demo.env Demo.cat_images) up
  = Returned {| statusCode := 500;
                sent := Some (error_object
                  "Authentication failed: Invalid client_id or client_secret") |}
  /\ forall body,
       answer (api_search Demo.env Demo.cat_images) up
       <> Returned {| statusCode := 401; sent := body |}.
Proof.
  split; [reflexivity | intros body; discriminate].
Qed.

(** C4, amended.  With both credentials set, when the token endpoint answers
    401 the caller of [/api/search?q=cat&mediaType=images] gets status 500
    with the message "Authentication failed: Invalid client_id or
    client_secret"; only the token request went out. *)
Theorem token_401_surfaces_as_500
        (id secret : string) (up : Upstream) (payload : Value) :
  id <> "" -> secret <> "" ->
  up (token_call (credentials id secret)) = Replied 401 payload ->
  api_search (credentials id secret)
             {| q := QStr "cat"; mediaType := QStr "images"; license := QUndef |} up
  = (Returned {| statusCode := 500;
                 sent := Some (error_object
                   "Authentication failed: Invalid client_id or client_secret") |},
     [token_call (credentials id secret)]).
Proof.
  intros Hi Hs Hup.
  rewrite (api_search_forwards _ _ "https://api.openverse.org/v1/images?q=cat")
    by reflexivity.
  exact (forward_token_failure _ _ up _ _
           (token_rejected id secret up 401 payload Hi Hs Hup eq_refl)).
Qed.

Lemma token_401_surfaces_as_500_witness :
  api_search Demo.env Demo.cat_images
             (Demo.upstream (Replied 401 VNull) (Replied 200 Demo.results))
  = (Returned {| statusCode := 500;
                 sent := Some (error_object
                   "Authentication failed: Invalid client_id or client_secret") |},
     [token_call Demo.env]).
Proof.
  apply (token_401_surfaces_as_500 "id" "secret"
           (Demo.upstream (Replied 401 VNull) (Replied 200 Demo.results)) VNull).
  - discriminate.
  - discriminate.
  - reflexivity.
Defined.

(** *** Missing configuration *)

(** C7.  When the client identifier or the client secret is unset or empty,
    [getAccessToken] throws the configuration error without contacting the
    token endpoint, and a search request that got as far as asking for the
    token (it passed validation and its URL was built) is answered with
    status 500 carrying that error. *)
Theorem missing_credentials_surface_500
        (env : Env) (up : Upstream) (query : Query) :
  OPENVERSE_CLIENT_ID env = None \/ OPENVERSE_CLIENT_ID env = Some ""
  \/ OPENVERSE_CLIENT_SECRET env = None \/ OPENVERSE_CLIENT_SECRET env = Some "" ->
  getAccessToken env up
  = (Threw (Error "Missing OPENVERSE_CLIENT_ID or OPENVERSE_CLIENT_SECRET in .env file"),
     [])
  /\ (passes_validation query = true ->
      forall url,
        apiUrl (mediaType query) (q query) (license query) = Some url ->
        api_search env query up
        = (Returned {| statusCode := 500;
                       sent := Some (error_object
                         "Missing OPENVERSE_CLIENT_ID or OPENVERSE_CLIENT_SECRET in .env file") |},
           [])).
Proof.
  intros H.
  assert (env_truthy (CLIENT_ID env) && env_truthy (CLIENT_SECRET env) = false) as E.
  { unfold CLIENT_ID, CLIENT_SECRET.
    destruct H as [H | [H | [H | H]]]; rewrite H; simpl;
      try reflexivity; apply andb_false_r. }
  pose proof (getAccessToken_unconfigured env up E) as Htok.
  split; [exact Htok|].
  intros Hv url Hu. rewrite (api_search_forwards env query url Hv Hu).
  exact (forward_token_failure env _ up _ _ Htok).
Qed.

Lemma missing_credentials_surface_500_witness :
  api_search {| OPENVERSE_CLIENT_ID := Some "id"; OPENVERSE_CLIENT_SECRET := None |}
             Demo.cat_images
             (Demo.upstream Demo.token_ok (Replied 200 Demo.results))
  = (Returned {| statusCode := 500;
                 sent := Some (error_object
                   "Missing OPENVERSE_CLIENT_ID or OPENVERSE_CLIENT_SECRET in .env file") |},
     []).
Proof.
  apply (proj2 (missing_credentials_surface_500
                  {| OPENVERSE_CLIENT_ID := Some "id"; OPENVERSE_CLIENT_SECRET := None |}
                  (Demo.upstream Demo.token_ok (Replied 200 Demo.results))
                  Demo.cat_images
                  (or_intror (or_intror (or_introl eq_refl))))
               eq_refl "https://api.openverse.org/v1/images?q=cat" eq_refl).
Defined.

(** *** The health route *)

(** C9.  [/api/health] is answered with status 200 and the object
    [{status: "OK", message: "Server is running"}] whatever the
    configuration, the query and the upstream are; it issues no call and
    cannot throw. *)
Theorem health_always_ok (env : Env) (query : Query) (up : Upstream) :
  app_get "/api/health" = Some api_health
  /\ api_health env query up
     = (Returned {| statusCode := 200;
                    sent := Some (VObj [("status", VStr "OK");
                                        ("message", VStr "Server is running")]) |},
        []).
Proof.
  split; reflexivity.
Qed.

(** *** Failures of the upstream search *)

Lemma forward_token_unconvertible (env : Env) (url : string) (up : Upstream)
      token cs :
  getAccessToken env up = (Returned token, cs) ->
  to_string token = None ->
  forward env url up
  = (Returned {| statusCode := 500;
                 sent := Some (error_object "Cannot convert object to primitive value") |},
     cs).
Proof.
  intros H Hs. unfold forward, try_catch. unfold bind at 1. rewrite H.
  unfold bind at 1. unfold template at 1. rewrite Hs. simpl.
  rewrite !app_nil_r. reflexivity.
Qed.

Lemma relay_error_no_response (msg : string) (up : Upstream) :
  relay_error {| message := msg; response := None |} up
  = (Returned {| statusCode := 500; sent := Some (error_object msg) |}, []).
Proof. reflexivity. Qed.

(** What the [catch] block answers to a rejected upstream search. *)
Lemma relay_error_response (msg : string) (code : N) (payload : Value) (up : Upstream) :
  code <> 0%N ->
  relay_error {| message := msg;
                 response := Some {| status := code; data := payload |} |} up
  = if (code =? 400)%N then
      match to_string (or_else (get_opt payload "detail")
                               (VStr "Invalid parameters, possibly license")) with
      | Some detail =>
          (Returned {| statusCode := 400;
                       sent := Some (error_object ("Bad request: " ++ detail)) |}, [])
      | None => (Threw (Error "Cannot convert object to primitive value"), [])
      end
    else
      (Returned {| statusCode := code;
                   sent := Some (error_object
                     (if (code =? 401)%N
                      then "Authentication failed: Invalid or expired access token"
                      else if (code =? 429)%N
                      then "Rate limit exceeded. Please try again later."
                      else msg)) |}, []).
Proof.
  intros H0. apply N.eqb_neq in H0.
  unfold relay_error, status_is, status_or, response_data. cbn [response status data].
  rewrite H0.
  destruct (N.eqb_spec code 400) as [->|_].
  - unfold bind, template.
    destruct (to_string _); reflexivity.
  - destruct (code =? 401)%N; [reflexivity|].
    destruct (code =? 429)%N; reflexivity.
Qed.

(** The part of the mapping that holds: once the token is in hand, a search
    that gets no answer is reported with status 500 and the transport's
    message; a search answered outside 2xx is reported under the upstream
    status, with the message of [axios] for that status, replaced for 401
    and 429, and for 400 by the upstream [detail] when it converts to a
    string. *)
Lemma search_failure_relayed
      (env : Env) (up : Upstream) (query : Query) (url : string)
      (token : Value) (bearer : string) (cs : list NetCall) :
  passes_validation query = true ->
  apiUrl (mediaType query) (q query) (license query) = Some url ->
  getAccessToken env up = (Returned token, cs) ->
  to_string token = Some bearer ->
  let call := search_call url bearer in
  let answered code msg :=
    api_search env query up
    = (Returned {| statusCode := code; sent := Some (error_object msg) |},
       (cs ++ [call])%list) in
  (forall reason, up call = NoReply reason -> answered 500%N reason)
  /\ (forall payload, up call = Replied 401 payload ->
        answered 401%N "Authentication failed: Invalid or expired access token")
  /\ (forall payload, up call = Replied 429 payload ->
        answered 429%N "Rate limit exceeded. Please try again later.")
  /\ (forall payload detail,
        up call = Replied 400 payload ->
        to_string (or_else (get_opt payload "detail")
                           (VStr "Invalid parameters, possibly license")) = Some detail ->
        answered 400%N ("Bad request: " ++ detail))
  /\ (forall code payload,
        up call = Replied code payload ->
        (100 <= code < 200 \/ 300 <= code <= 599)%N ->
        code <> 400%N -> code <> 401%N -> code <> 429%N ->
        answered code ("Request failed with status code " ++ decimal code)).
Proof.
  intros Hv Hu Htok Hb call answered. subst answered.
  rewrite (api_search_forwards env query url Hv Hu).
  rewrite (forward_token_success env _ up token bearer cs Htok Hb).
  fold call. repeat split.
  - intros reason ->. cbn [settle]. rewrite relay_error_no_response.
    rewrite app_nil_r. reflexivity.
  - intros payload ->. cbn. rewrite app_nil_r. reflexivity.
  - intros payload ->. cbn. rewrite app_nil_r. reflexivity.
  - intros payload detail -> Hd. unfold settle. cbn [is_2xx N.leb N.ltb N.compare
      Pos.compare Pos.compare_cont andb].
    change (is_2xx 400) with false. cbv iota.
    rewrite relay_error_response by discriminate.
    change (400 =? 400)%N with true. cbv iota. rewrite Hd.
    rewrite app_nil_r. reflexivity.
  - intros code payload -> Hr H400 H401 H429. unfold settle.
    replace (is_2xx code) with false.
    2:{ symmetry. unfold is_2xx. apply andb_false_iff.
        destruct Hr as [Hr|Hr]; [left; apply N.leb_gt | right; apply N.ltb_ge]; lia. }
    rewrite relay_error_response by lia.
    apply N.eqb_neq in H400, H401, H429. rewrite H400, H401, H429.
    rewrite app_nil_r. reflexivity.
Qed.

(** C6 is what the handler is written to do, and the handler misses it in
    one case.  When the upstream search answers 400 with a [detail] that is
    an object with an own property [toString], the template literal in the
    [catch] block throws: the handler ends without an answer, where the
    claim has status 400 and an [{error}] object. *)
Theorem unconvertible_detail_escapes :
  let up := Demo.upstream Demo.token_ok
              (Replied 400 (VObj [("detail", VObj [("toString", VStr "x")])])) in
  api_search Demo.env Demo.cat_images up
  = (Threw (Error "Cannot convert object to primitive value"),
     [token_call Demo.env;
      search_call "https://api.openverse.org/v1/images?q=cat" "t0k"])
  /\ forall r, answer (api_search Demo.env Demo.cat_images) up <> Returned r.
Proof.
  split; [reflexivity | intros r; discriminate].
Qed.

(** *** The upstream URL *)

(** Two answers that differ in a status code or in the first characters of
    a message. *)
Ltac differ := cbn; discriminate.

Lemma append_empty_r (s : string) : s ++ "" = s.
Proof.
  induction s as [|c s IH]; simpl; [reflexivity | now rewrite IH].
Qed.

Lemma getAccessToken_calls (env : Env) (up : Upstream) (c : NetCall) :
  In c (calls (getAccessToken env) up) -> c = token_call env.
Proof.
  unfold calls, getAccessToken.
  destruct (negb (env_truthy (CLIENT_ID env)) || negb (env_truthy (CLIENT_SECRET env))).
  - simpl. contradiction.
  - unfold try_catch, bind, axios, member, throw, ret.
    destruct (settle (up (token_call env))) as [r|err].
    + destruct (nullish (data r)); simpl; intuition.
    + simpl. intuition.
Qed.

Lemma relay_error_calls (error : JsError) (up : Upstream) :
  calls (relay_error error) up = [].
Proof.
  unfold calls, relay_error, bind, template, ret, throw.
  destruct (status_is error 400).
  - destruct (to_string _); reflexivity.
  - destruct (status_is error 401); [reflexivity|].
    destruct (status_is error 429); reflexivity.
Qed.

(** The only [GET] the [try] block issues goes to the URL it was given. *)
Lemma forward_get_calls (env : Env) (url : string) (up : Upstream) u h :
  In (Get u h) (calls (forward env url) up) -> u = url.
Proof.
  pose proof (getAccessToken_calls env up) as Hc. unfold calls in *.
  destruct (getAccessToken env up) as [[token|e] cs] eqn:E; simpl in Hc.
  - destruct (to_string token) as [bearer|] eqn:Hs.
    + rewrite (forward_token_success env url up token bearer cs E Hs).
      assert (In (Get u h) (cs ++ [search_call url bearer]) -> u = url) as Hin.
      { intros H. apply in_app_or in H. destruct H as [H | [H | []]].
        - apply Hc in H. discriminate.
        - injection H as <- _. reflexivity. }
      destruct (settle (up (search_call url bearer))) as [r|err]; simpl; [exact Hin|].
      pose proof (relay_error_calls err up) as Hr. unfold calls in Hr.
      destruct (relay_error err up) as [o cs']. simpl in *. subst cs'.
      rewrite app_nil_r. exact Hin.
    + rewrite (forward_token_unconvertible env url up token cs E Hs). simpl.
      intros H. apply Hc in H. discriminate.
  - rewrite (forward_token_failure env url up e cs E). simpl.
    intros H. apply Hc in H. discriminate.
Qed.

(** The URL as the specification words it, from the text of [q] (none when
    [q] is absent) and the text of [license] (none when absent): the
    [license] parameter follows whenever one is present in the query. *)
Definition specified_url (mediaType : string) (q license : option string) : string :=
  "https://api.openverse.org/v1/" ++ mediaType
  ++ "?q=" ++ Uri.encodeURIComponent (match q with
                                      | Some text => text
                                      | None => "undefined"
                                      end)
  ++ match license with
     | Some text => "&license=" ++ text
     | None => ""
     end.

(** C8, as stated, fails: a request with [license=] (present, empty) passes
    validation, and the search goes to a URL without any [license]
    parameter, where the wording gives [...?q=cat&license=]. *)
Lemma empty_license_not_appended :
  let query := {| q := QStr "cat"; mediaType := QStr "images"; license := QStr "" |} in
  let up := Demo.upstream Demo.token_ok (Replied 200 Demo.results) in
  passes_validation query = true
  /\ calls (api_search Demo.env query) up
     = [token_call Demo.env;
        Get "https://api.openverse.org/v1/images?q=cat" [("Authorization", "Bearer t0k")]]
  /\ specified_url "images" (Some "cat") (Some "")
     = "https://api.openverse.org/v1/images?q=cat&license="
  /\ "https://api.openverse.org/v1/images?q=cat"
     <> specified_url "images" (Some "cat") (Some "").
Proof.
  repeat split. discriminate.
Qed.

(** C8, amended.  For a request that passes validation and whose [q]
    converts to text, the upstream URL is
    [https://api.openverse.org/v1/<mediaType>?q=<encoded q>], followed by
    [&license=<license>] when a license is present and not empty; an absent
    [q] is encoded as the text [undefined].  Every search the handler sends
    goes to that URL. *)
Theorem upstream_url_shape
        (env : Env) (up : Upstream) (mt : string) (qv lic : QVal) (text : string) :
  mt = "images" \/ mt = "audio" ->
  lic = QUndef \/ lic = QStr "" \/ (exists l, lic = QStr l /\ In l validLicenses) ->
  q_to_string qv = Some text ->
  let query := {| q := qv; mediaType := QStr mt; license := lic |} in
  let url :=
    "https://api.openverse.org/v1/" ++ mt
    ++ "?q=" ++ Uri.encodeURIComponent text
    ++ match lic with
       | QStr "" => ""
       | QStr l => "&license=" ++ l
       | _ => ""
       end in
  apiUrl (QStr mt) qv lic = Some url
  /\ api_search env query = forward env url
  /\ (forall u h, In (Get u h) (calls (api_search env query) up) -> u = url)
  /\ (qv = QUndef -> text = "undefined").
Proof.
  intros Hm Hl Hq query url.
  assert (passes_validation query = true) as Hv.
  { apply passes_validation_spec. unfold query. cbn [mediaType license].
    split; [destruct Hm as [-> | ->]; tauto | exact Hl]. }
  pose proof (apiUrl_validated mt qv lic text Hl Hq) as Hu. fold url in Hu.
  split; [exact Hu|].
  assert (api_search env query = forward env url) as Hf
    by exact (api_search_forwards env query url Hv Hu).
  split; [exact Hf|]. split.
  - intros u h. rewrite Hf. apply forward_get_calls.
  - intros ->. simpl in Hq. injection Hq as <-. reflexivity.
Qed.

Lemma upstream_url_shape_witness :
  api_search Demo.env
             {| q := QUndef; mediaType := QStr "audio"; license := QStr "BY-SA" |}
  = forward Demo.env "https://api.openverse.org/v1/audio?q=undefined&license=BY-SA".
Proof.
  apply (upstream_url_shape Demo.env
           (Demo.upstream Demo.token_ok (Replied 200 Demo.results))
           "audio" QUndef (QStr "BY-SA") "undefined").
  - right. reflexivity.
  - right. right. exists "BY-SA". split; [reflexivity|]. simpl. tauto.
  - reflexivity.
Defined.

(** Where the handler stands after the two checks does not depend on
    whether [license] is empty or absent. *)
Lemma apiUrl_empty_license (mt qv : QVal) :
  apiUrl mt qv (QStr "") = apiUrl mt qv QUndef.
Proof. reflexivity. Qed.

(** What the [try]/[catch] block answers is never the 400 of a rejected
    license. *)
Lemma forward_not_license_rejection (env : Env) (url : string) (up : Upstream) :
  answer (forward env url) up <> Returned license_rejection.
Proof.
  unfold answer, license_rejection.
  destruct (getAccessToken env up) as [[token|e] cs] eqn:E.
  - destruct (to_string token) as [bearer|] eqn:Hs.
    + rewrite (forward_token_success env url up token bearer cs E Hs).
      destruct (up (search_call url bearer)) as [code payload|reason];
        unfold settle.
      * destruct (is_2xx code) eqn:E2; [differ|].
        destruct (N.eqb_spec code 0) as [->|H0]; [differ|].
        rewrite (relay_error_response _ code payload up H0).
        destruct (N.eqb_spec code 400) as [->|H400].
        -- destruct (to_string (or_else _ _)); differ.
        -- destruct (N.eqb_spec code 401) as [->|_]; [differ|].
           destruct (N.eqb_spec code 429) as [->|_]; [differ|].
           cbn [fst]. intros H. injection H as H _. contradiction.
      * rewrite relay_error_no_response. differ.
    + rewrite (forward_token_unconvertible env url up token cs E Hs). differ.
  - rewrite (forward_token_failure env url up e cs E). differ.
Qed.

(** C10.  With a valid [mediaType], a [license] equal to the empty string is
    handled as if it were absent: the handler does what it does for the same
    request without [license]; when the URL is built it has no [license]
    parameter and the handler goes on to the token and the search; what it
    answers is never the 400 of a rejected license. *)
Theorem empty_license_treated_as_absent (env : Env) (mt : string) (qv : QVal) :
  mt = "images" \/ mt = "audio" ->
  let empty := {| q := qv; mediaType := QStr mt; license := QStr "" |} in
  let absent := {| q := qv; mediaType := QStr mt; license := QUndef |} in
  api_search env empty = api_search env absent
  /\ (forall text,
        q_to_string qv = Some text ->
        api_search env empty
        = forward env ("https://api.openverse.org/v1/" ++ mt
                       ++ "?q=" ++ Uri.encodeURIComponent text))
  /\ forall up, answer (api_search env empty) up <> Returned license_rejection.
Proof.
  intros Hm empty absent.
  assert (passes_validation empty = true) as Hve
    by (destruct Hm as [-> | ->]; reflexivity).
  assert (passes_validation absent = true) as Hva
    by (destruct Hm as [-> | ->]; reflexivity).
  split; [|split].
  - rewrite (api_search_validated env empty Hve), (api_search_validated env absent Hva).
    reflexivity.
  - intros text Hq.
    apply (api_search_forwards env empty _ Hve). unfold empty. cbn [mediaType q license].
    rewrite (apiUrl_validated mt qv (QStr "") text) by tauto.
    rewrite append_empty_r. reflexivity.
  - intros up. rewrite (api_search_validated env empty Hve).
    destruct (apiUrl (mediaType empty) (q empty) (license empty)) as [url|].
    + apply forward_not_license_rejection.
    + discriminate.
Qed.

Lemma empty_license_treated_as_absent_witness :
  api_search Demo.env {| q := QStr "cat"; mediaType := QStr "images"; license := QStr "" |}
  = forward Demo.env "https://api.openverse.org/v1/images?q=cat".
Proof.
  apply (proj1 (proj2 (empty_license_treated_as_absent Demo.env "images" (QStr "cat")
                         (or_introl eq_refl)))
               "cat" eq_refl).
Defined.


(** ** The paths through the search handler

    Every run of the [try]/[catch] block takes one of eight paths, told
    apart by what [getAccessToken] yields and what the upstream search
    answers.  The relation below names them; the further properties are
    read off it. *)

Definition configured (env : Env) : bool :=
  env_truthy (CLIENT_ID env) && env_truthy (CLIENT_SECRET env).

Definition detail_or_default (payload : Value) : Value :=
  or_else (get_opt payload "detail") (VStr "Invalid parameters, possibly license").

Definition plain (code : N) (msg : string) : Res :=
  {| statusCode := code; sent := Some (error_object msg) |}.

Inductive Forwarded (env : Env) (url : string) (up : Upstream) :
  Outcome Res * list NetCall -> Prop :=
| F_token_failed e cs :
    getAccessToken env up = (Threw e, cs) ->
    Forwarded env url up (Returned (plain 500 (message e)), cs)
| F_token_unconvertible token cs :
    getAccessToken env up = (Returned token, cs) ->
    to_string token = None ->
    Forwarded env url up
      (Returned (plain 500 "Cannot convert object to primitive value"), cs)
| F_relayed token bearer cs code payload :
    getAccessToken env up = (Returned token, cs) ->
    to_string token = Some bearer ->
    up (search_call url bearer) = Replied code payload ->
    is_2xx code = true ->
    Forwarded env url up
      (Returned {| statusCode := 200; sent := Some payload |},
       (cs ++ [search_call url bearer])%list)
| F_no_reply token bearer cs reason :
    getAccessToken env up = (Returned token, cs) ->
    to_string token = Some bearer ->
    up (search_call url bearer) = NoReply reason ->
    Forwarded env url up
      (Returned (plain 500 reason), (cs ++ [search_call url bearer])%list)
| F_status_zero token bearer cs payload :
    getAccessToken env up = (Returned token, cs) ->
    to_string token = Some bearer ->
    up (search_call url bearer) = Replied 0 payload ->
    Forwarded env url up
      (Returned (plain 500 "Request failed with status code 0"),
       (cs ++ [search_call url bearer])%list)
| F_rejected token bearer cs code payload :
    getAccessToken env up = (Returned token, cs) ->
    to_string token = Some bearer ->
    up (search_call url bearer) = Replied code payload ->
    is_2xx code = false -> code <> 0%N -> code <> 400%N ->
    Forwarded env url up
      (Returned (plain code
                   (if (code =? 401)%N
                    then "Authentication failed: Invalid or expired access token"
                    else if (code =? 429)%N
                    then "Rate limit exceeded. Please try again later."
                    else "Request failed with status code " ++ decimal code)),
       (cs ++ [search_call url bearer])%list)
| F_bad_request token bearer cs payload detail :
    getAccessToken env up = (Returned token, cs) ->
    to_string token = Some bearer ->
    up (search_call url bearer) = Replied 400 payload ->
    to_string (detail_or_default payload) = Some detail ->
    Forwarded env url up
      (Returned (plain 400 ("Bad request: " ++ detail)),
       (cs ++ [search_call url bearer])%list)
| F_escaped token bearer cs payload :
    getAccessToken env up = (Returned token, cs) ->
    to_string token = Some bearer ->
    up (search_call url bearer) = Replied 400 payload ->
    to_string (detail_or_default payload) = None ->
    Forwarded env url up
      (Threw (Error "Cannot convert object to primitive value"),
       (cs ++ [search_call url bearer])%list).

Lemma forward_paths (env : Env) (url : string) (up : Upstream) :
  Forwarded env url up (forward env url up).
Proof.
  destruct (getAccessToken env up) as [[token|e] cs] eqn:E.
  - destruct (to_string token) as [bearer|] eqn:Hs.
    + rewrite (forward_token_success env url up token bearer cs E Hs).
      destruct (up (search_call url bearer)) as [code payload|reason] eqn:Hup;
        unfold settle.
      * destruct (is_2xx code) eqn:E2.
        { exact (F_relayed env url up token bearer cs code payload E Hs Hup E2). }
        destruct (N.eqb_spec code 0) as [->|H0].
        { cbn. rewrite app_nil_r.
          exact (F_status_zero env url up token bearer cs payload E Hs Hup). }
        rewrite (relay_error_response _ code payload up H0).
        destruct (N.eqb_spec code 400) as [->|H400].
        -- fold (detail_or_default payload).
           destruct (to_string (detail_or_default payload)) as [detail|] eqn:Hd;
             rewrite app_nil_r.
           ++ exact (F_bad_request env url up token bearer cs payload detail
                       E Hs Hup Hd).
           ++ exact (F_escaped env url up token bearer cs payload E Hs Hup Hd).
        -- rewrite app_nil_r.
           exact (F_rejected env url up token bearer cs code payload
                    E Hs Hup E2 H0 H400).
      * rewrite relay_error_no_response, app_nil_r.
        exact (F_no_reply env url up token bearer cs reason E Hs Hup).
    + rewrite (forward_token_unconvertible env url up token cs E Hs).
      exact (F_token_unconvertible env url up token cs E Hs).
  - rewrite (forward_token_failure env url up e cs E).
    exact (F_token_failed env url up e cs E).
Qed.

(** What [getAccessToken] puts on the network: the token request when both
    credentials are set, nothing otherwise. *)
Lemma getAccessToken_calls_shape (env : Env) (up : Upstream) :
  calls (getAccessToken env) up = if configured env then [token_call env] else [].
Proof.
  unfold calls, configured, getAccessToken. rewrite <- negb_andb.
  destruct (env_truthy (CLIENT_ID env) && env_truthy (CLIENT_SECRET env)); simpl;
    [|reflexivity].
  unfold try_catch, bind, axios, member, throw, ret.
  destruct (settle (up (token_call env))) as [r|err]; simpl; [|reflexivity].
  destruct (nullish (data r)); reflexivity.
Qed.

(** How a request ends before the [try] block, or that it reaches it. *)
Inductive Handled (env : Env) (query : Query) : M Res -> Prop :=
| H_mediaType shown :
    includes validMediaTypes (mediaType query) = false ->
    q_to_string (mediaType query) = Some shown ->
    Handled env query (ret mediaType_rejection)
| H_mediaType_throws :
    includes validMediaTypes (mediaType query) = false ->
    q_to_string (mediaType query) = None ->
    Handled env query (throw type_error)
| H_license shown :
    includes validMediaTypes (mediaType query) = true ->
    q_truthy (license query) = true ->
    includes validLicenses (license query) = false ->
    q_to_string (license query) = Some shown ->
    Handled env query (ret license_rejection)
| H_license_throws :
    includes validMediaTypes (mediaType query) = true ->
    q_truthy (license query) = true ->
    includes validLicenses (license query) = false ->
    q_to_string (license query) = None ->
    Handled env query (throw type_error)
| H_url_throws :
    passes_validation query = true ->
    q_to_string (q query) = None ->
    Handled env query (throw type_error)
| H_forwarded url :
    passes_validation query = true ->
    apiUrl (mediaType query) (q query) (license query) = Some url ->
    Handled env query (forward env url).

Lemma api_search_handled (env : Env) (query : Query) :
  Handled env query (api_search env query).
Proof.
  destruct (passes_validation query) eqn:Hv.
  - rewrite (api_search_validated env query Hv).
    destruct (apiUrl (mediaType query) (q query) (license query)) as [url|] eqn:Hu.
    + exact (H_forwarded env query url Hv Hu).
    + apply (H_url_throws env query Hv).
      destruct (q_to_string (q query)) as [text|] eqn:Hq; [|reflexivity].
      destruct (proj2 (apiUrl_built_iff query Hv) (ex_intro _ text Hq)) as (url & Hu').
      congruence.
  - unfold passes_validation in Hv. unfold api_search.
    destruct (includes validMediaTypes (mediaType query)) eqn:Hm; cbn [negb].
    + cbn [andb] in Hv. apply orb_false_iff in Hv. destruct Hv as [Ht Hl].
      apply negb_false_iff in Ht. rewrite Ht, Hl. cbn [negb andb].
      unfold q_template.
      destruct (q_to_string (license query)) as [shown|] eqn:Hs.
      * exact (H_license env query shown Hm Ht Hl Hs).
      * exact (H_license_throws env query Hm Ht Hl Hs).
    + unfold q_template.
      destruct (q_to_string (mediaType query)) as [shown|] eqn:Hs.
      * exact (H_mediaType env query shown Hm Hs).
      * exact (H_mediaType_throws env query Hm Hs).
Qed.

Lemma getAccessToken_returned_calls (env : Env) (up : Upstream) token cs :
  getAccessToken env up = (Returned token, cs) ->
  configured env = true /\ cs = [token_call env].
Proof.
  intros H. pose proof (getAccessToken_calls_shape env up) as Hc.
  unfold calls in Hc. rewrite H in Hc. simpl in Hc.
  destruct (configured env) eqn:Ec; [split; trivial|].
  rewrite (getAccessToken_unconfigured env up Ec) in H. discriminate.
Qed.

Lemma getAccessToken_thrown_calls (env : Env) (up : Upstream) e cs :
  getAccessToken env up = (Threw e, cs) ->
  cs = if configured env then [token_call env] else [].
Proof.
  intros H. pose proof (getAccessToken_calls_shape env up) as Hc.
  unfold calls in Hc. rewrite H in Hc. exact Hc.
Qed.

(** The cases of [Forwarded], by name. *)
Ltac forward_cases env url up :=
  destruct (forward_paths env url up)
    as [e cs E | token cs E Hs
        | token bearer cs code payload E Hs Hup H2
        | token bearer cs reason E Hs Hup
        | token bearer cs payload E Hs Hup
        | token bearer cs code payload E Hs Hup H2 H0 H400
        | token bearer cs payload detail E Hs Hup Hd
        | token bearer cs payload E Hs Hup Hd].

(** *** Further properties of the search route *)

(** X1.  Whatever the request, the configuration and the upstream, the
    handler puts on the network nothing, or the token request alone, or the
    token request followed by one search sent to the URL built from the
    query, under the bearer string of the token just obtained.  There is no
    retry, no second search, and no search without a token. *)
Theorem api_search_calls_shape (env : Env) (query : Query) (up : Upstream) :
  calls (api_search env query) up = []
  \/ calls (api_search env query) up = [token_call env]
  \/ exists token bearer url,
       apiUrl (mediaType query) (q query) (license query) = Some url
       /\ answer (getAccessToken env) up = Returned token
       /\ to_string token = Some bearer
       /\ calls (api_search env query) up
          = [token_call env; search_call url bearer].
Proof.
  unfold calls, answer.
  destruct (api_search_handled env query) as [ | | | | |url Hv Hu];
    try (left; reflexivity).
  forward_cases env url up;
    try (destruct (getAccessToken_returned_calls env up token cs E) as [_ ->]);
    try (right; right; exists token, bearer, url; rewrite E;
         split; [exact Hu | split; [reflexivity | split; [exact Hs | reflexivity]]]).
  - rewrite (getAccessToken_thrown_calls env up e cs E).
    destruct (configured env); [right; left | left]; reflexivity.
  - right. left. reflexivity.
Qed.

(** X2.  An answer with status 200 is never made up: the upstream search was
    sent, it answered in 2xx, and what the caller gets is the body of that
    answer. *)
Theorem status_200_is_upstream_body
        (env : Env) (query : Query) (up : Upstream) (r : Res) :
  answer (api_search env query) up = Returned r ->
  statusCode r = 200%N ->
  exists url bearer code payload,
    apiUrl (mediaType query) (q query) (license query) = Some url
    /\ In (search_call url bearer) (calls (api_search env query) up)
    /\ up (search_call url bearer) = Replied code payload
    /\ (200 <= code < 300)%N
    /\ sent r = Some payload.
Proof.
  unfold answer, calls.
  destruct (api_search_handled env query) as [ | | | | |url Hv Hu];
    try (intros Hr; discriminate Hr);
    try (intros Hr; injection Hr as <-; discriminate).
  forward_cases env url up;
    cbn [fst snd]; intros Hr; try discriminate Hr;
    injection Hr as <-; cbn [statusCode plain sent]; intros Hc;
    try discriminate Hc.
  - exists url, bearer, code, payload. split; [exact Hu|]. repeat split; trivial.
    + apply in_or_app. right. left. reflexivity.
    + unfold is_2xx in H2. apply andb_true_iff in H2. destruct H2 as [H2 _].
      apply N.leb_le in H2. exact H2.
    + unfold is_2xx in H2. apply andb_true_iff in H2. destruct H2 as [_ H2].
      apply N.ltb_lt in H2. exact H2.
  - subst code. discriminate H2.
Qed.

Lemma status_200_is_upstream_body_witness :
  exists url bearer code payload,
    apiUrl (QStr "images") (QStr "cat") QUndef = Some url
    /\ In (search_call url bearer)
          (calls (api_search Demo.env Demo.cat_images)
                 (Demo.upstream Demo.token_ok (Replied 201 Demo.results)))
    /\ Demo.upstream Demo.token_ok (Replied 201 Demo.results) (search_call url bearer)
       = Replied code payload
    /\ (200 <= code < 300)%N
    /\ Some Demo.results = Some payload.
Proof.
  apply (status_200_is_upstream_body Demo.env Demo.cat_images
           (Demo.upstream Demo.token_ok (Replied 201 Demo.results))
           {| statusCode := 200; sent := Some Demo.results |}).
  - reflexivity.
  - reflexivity.
Defined.

(** X3.  Every answer under a status other than 200 is an object with the
    single field [error], holding a string. *)
Theorem failure_answers_are_error_objects
        (env : Env) (query : Query) (up : Upstream) (r : Res) :
  answer (api_search env query) up = Returned r ->
  statusCode r <> 200%N ->
  exists msg, sent r = Some (VObj [("error", VStr msg)]).
Proof.
  unfold answer.
  destruct (api_search_handled env query) as [ | | | | |url Hv Hu];
    try (intros Hr; discriminate Hr);
    try (intros Hr _; injection Hr as <-; eexists; reflexivity).
  forward_cases env url up;
    cbn [fst]; intros Hr Hc; try discriminate Hr; injection Hr as <-;
    try (eexists; reflexivity).
  exfalso. apply Hc. reflexivity.
Qed.

Lemma failure_answers_are_error_objects_witness :
  exists msg,
    Some (error_object "Request failed with status code 503")
    = Some (VObj [("error", VStr msg)]).
Proof.
  apply (failure_answers_are_error_objects Demo.env Demo.cat_images
           (Demo.upstream Demo.token_ok (Replied 503 (VStr "busy")))
           {| statusCode := 503;
              sent := Some (error_object "Request failed with status code 503") |}).
  - reflexivity.
  - discriminate.
Defined.

(** X4.  The handler ends without an answer only where a conversion to text
    throws.  If [mediaType], [license] and [q] convert, and no 400 of the
    upstream search carries a [detail] that fails to convert, the request
    is answered. *)
Theorem api_search_answers
        (env : Env) (query : Query) (up : Upstream) :
  q_to_string (mediaType query) <> None ->
  q_to_string (license query) <> None ->
  q_to_string (q query) <> None ->
  (forall url bearer payload,
      up (search_call url bearer) = Replied 400 payload ->
      to_string (or_else (get_opt payload "detail")
                         (VStr "Invalid parameters, possibly license")) <> None) ->
  exists r, answer (api_search env query) up = Returned r.
Proof.
  intros Hmt Hlic Hq Hdetail. unfold answer.
  destruct (api_search_handled env query) as [ | | | | |url Hv Hu];
    try contradiction; try (eexists; reflexivity).
  forward_cases env url up; try (eexists; reflexivity).
  exfalso. exact (Hdetail _ bearer payload Hup Hd).
Qed.

Lemma api_search_answers_witness :
  exists r,
    answer (api_search Demo.env Demo.cat_images)
           (Demo.upstream Demo.token_ok
              (Replied 400 (VObj [("detail", VArr [VStr "a"; VNum "1"])])))
    = Returned r.
Proof.
  apply (api_search_answers Demo.env Demo.cat_images
           (Demo.upstream Demo.token_ok
              (Replied 400 (VObj [("detail", VArr [VStr "a"; VNum "1"])])))).
  - discriminate.
  - discriminate.
  - discriminate.
  - intros url bearer payload H. injection H as <-. discriminate.
Defined.

(** X5.  The status of an answer is 200, the 400 of a rejected [mediaType]
    or [license], 500, or the status with which the upstream search itself
    answered.  A status of the token endpoint is never handed on. *)
Theorem answer_status_provenance
        (env : Env) (query : Query) (up : Upstream) (r : Res) :
  answer (api_search env query) up = Returned r ->
  statusCode r = 200%N
  \/ r = mediaType_rejection
  \/ r = license_rejection
  \/ statusCode r = 500%N
  \/ exists url bearer payload,
       apiUrl (mediaType query) (q query) (license query) = Some url
       /\ up (search_call url bearer) = Replied (statusCode r) payload.
Proof.
  unfold answer.
  destruct (api_search_handled env query) as [ | | | | |url Hv Hu];
    try (intros Hr; discriminate Hr);
    try (intros Hr; injection Hr as <-; tauto).
  forward_cases env url up;
    cbn [fst]; intros Hr; try discriminate Hr; injection Hr as <-;
    cbn [plain statusCode]; try tauto.
  - do 4 right. exists url, bearer, payload. split; [exact Hu | exact Hup].
  - do 4 right. exists url, bearer, payload. split; [exact Hu | exact Hup].
Qed.

Lemma answer_status_provenance_witness :
  let up := Demo.upstream Demo.token_ok (Replied 404 VNull) in
  let r := {| statusCode := 404;
              sent := Some (error_object "Request failed with status code 404") |} in
  statusCode r = 200%N
  \/ r = mediaType_rejection
  \/ r = license_rejection
  \/ statusCode r = 500%N
  \/ exists url bearer payload,
       apiUrl (QStr "images") (QStr "cat") QUndef = Some url
       /\ up (search_call url bearer) = Replied (statusCode r) payload.
Proof.
  apply (answer_status_provenance Demo.env Demo.cat_images
           (Demo.upstream Demo.token_ok (Replied 404 VNull))).
  reflexivity.
Defined.

(** X6.  Whatever makes [getAccessToken] throw, a request that passed
    validation and had its URL built is answered with status 500 and the
    message of the thrown error, and the upstream search is not sent: a
    rate-limited token endpoint, too, reaches the caller as a 500. *)
Theorem token_failure_surfaces_as_500
        (env : Env) (query : Query) (up : Upstream) (url : string) (e : JsError) :
  passes_validation query = true ->
  apiUrl (mediaType query) (q query) (license query) = Some url ->
  answer (getAccessToken env) up = Threw e ->
  api_search env query up
  = (Returned {| statusCode := 500; sent := Some (error_object (message e)) |},
     calls (getAccessToken env) up).
Proof.
  intros Hv Hu Ht. unfold answer, calls in *.
  destruct (getAccessToken env up) as [o cs] eqn:E. simpl in Ht. subst o.
  rewrite (api_search_forwards env query url Hv Hu).
  exact (forward_token_failure env _ up e cs E).
Qed.

Lemma token_failure_surfaces_as_500_witness :
  api_search Demo.env Demo.cat_images
             (Demo.upstream (Replied 429 VNull) (Replied 200 Demo.results))
  = (Returned {| statusCode := 500;
                 sent := Some (error_object
                                 "Rate limit exceeded. Please try again later.") |},
     [token_call Demo.env]).
Proof.
  apply (token_failure_surfaces_as_500 Demo.env Demo.cat_images
           (Demo.upstream (Replied 429 VNull) (Replied 200 Demo.results))
           "https://api.openverse.org/v1/images?q=cat"
           (Error "Rate limit exceeded. Please try again later.")).
  - reflexivity.
  - reflexivity.
  - reflexivity.
Defined.

(** X7.  For a request whose URL was built and whose token was obtained:
    when the upstream search answers 400 and its body has no usable
    [detail] (none, or a falsy one such as the empty string or [null]), the
    caller gets status 400 with "Bad request: Invalid parameters, possibly
    license". *)
Theorem bad_request_default_detail
        (env : Env) (query : Query) (up : Upstream) (url : string)
        (token : Value) (bearer : string) (payload : Value) :
  passes_validation query = true ->
  apiUrl (mediaType query) (q query) (license query) = Some url ->
  answer (getAccessToken env) up = Returned token ->
  to_string token = Some bearer ->
  up (search_call url bearer)
  = Replied 400 payload ->
  truthy (get_opt payload "detail") = false ->
  answer (api_search env query) up
  = Returned {| statusCode := 400;
                sent := Some (error_object
                  "Bad request: Invalid parameters, possibly license") |}.
Proof.
  intros Hv Hu Ht Hs Hup Hd. unfold answer in *.
  destruct (getAccessToken env up) as [o cs] eqn:E. simpl in Ht. subst o.
  rewrite (api_search_forwards env query url Hv Hu).
  rewrite (forward_token_success env _ up token bearer cs E Hs), Hup.
  unfold settle. change (is_2xx 400) with false. cbv iota.
  rewrite relay_error_response by discriminate.
  change (400 =? 400)%N with true. cbv iota.
  unfold or_else. rewrite Hd. reflexivity.
Qed.

Lemma bad_request_default_detail_witness :
  answer (api_search Demo.env Demo.cat_images)
         (Demo.upstream Demo.token_ok (Replied 400 (VObj [("detail", VStr "")])))
  = Returned {| statusCode := 400;
                sent := Some (error_object
                  "Bad request: Invalid parameters, possibly license") |}.
Proof.
  apply (bad_request_default_detail Demo.env Demo.cat_images
           (Demo.upstream Demo.token_ok (Replied 400 (VObj [("detail", VStr "")])))
           "https://api.openverse.org/v1/images?q=cat"
           (VStr "t0k") "t0k" (VObj [("detail", VStr "")])).
  - reflexivity.
  - reflexivity.
  - reflexivity.
  - reflexivity.
  - reflexivity.
  - reflexivity.
Defined.

(** *** Further properties of the token provider *)

(** X8.  With both credentials set and the token endpoint answering in 2xx
    with a body that is neither [null] nor [undefined], [getAccessToken]
    returns the [access_token] property of that body, [undefined] when the
    body has none, after exactly one request, which carries the two
    credentials and the grant type to the token URL. *)
Theorem getAccessToken_returns_field
        (id secret : string) (up : Upstream) (code : N) (payload : Value) :
  id <> "" -> secret <> "" ->
  up (Post "https://api.openverse.org/v1/auth_tokens/token/"
           [("client_id", id); ("client_secret", secret);
            ("grant_type", "client_credentials")]
           [("Content-Type", "application/x-www-form-urlencoded")])
  = Replied code payload ->
  (200 <= code < 300)%N ->
  payload <> VNull -> payload <> VUndefined ->
  getAccessToken (credentials id secret) up
  = (Returned (match payload with
               | VObj fields =>
                   match assoc "access_token" fields with
                   | Some token => token
                   | None => VUndefined
                   end
               | _ => VUndefined
               end),
     [Post "https://api.openverse.org/v1/auth_tokens/token/"
           [("client_id", id); ("client_secret", secret);
            ("grant_type", "client_credentials")]
           [("Content-Type", "application/x-www-form-urlencoded")]]).
Proof.
  intros Hi Hs Hup Hc Hn Hu.
  rewrite (getAccessToken_configured id secret up Hi Hs).
  unfold try_catch, bind, axios.
  change (token_call (credentials id secret))
    with (Post "https://api.openverse.org/v1/auth_tokens/token/"
               [("client_id", id); ("client_secret", secret);
                ("grant_type", "client_credentials")]
               [("Content-Type", "application/x-www-form-urlencoded")]).
  rewrite Hup. unfold settle, is_2xx.
  replace ((200 <=? code)%N) with true by (symmetry; apply N.leb_le; lia).
  replace ((code <? 300)%N) with true by (symmetry; apply N.ltb_lt; lia).
  cbn [andb data member].
  unfold member. cbn [data].
  destruct payload; try contradiction; reflexivity.
Qed.

Lemma getAccessToken_returns_field_witness :
  getAccessToken Demo.env (Demo.upstream Demo.token_ok (Replied 200 Demo.results))
  = (Returned (VStr "t0k"), [token_call Demo.env]).
Proof.
  apply (getAccessToken_returns_field "id" "secret"
           (Demo.upstream Demo.token_ok (Replied 200 Demo.results))
           200%N (VObj [("access_token", VStr "t0k")])).
  - discriminate.
  - discriminate.
  - reflexivity.
  - lia.
  - discriminate.
  - discriminate.
Defined.

(** X9.  When the token endpoint answers in 2xx with an object that has no
    [access_token], nothing fails there: for a request that passed
    validation and had its URL built, the search goes out to that URL with
    the header [Authorization: Bearer undefined]. *)
Theorem missing_access_token_sends_undefined
        (id secret : string) (query : Query) (up : Upstream) (url : string)
        (code : N) (fields : list (string * Value)) :
  id <> "" -> secret <> "" ->
  passes_validation query = true ->
  apiUrl (mediaType query) (q query) (license query) = Some url ->
  up (token_call (credentials id secret)) = Replied code (VObj fields) ->
  (200 <= code < 300)%N ->
  assoc "access_token" fields = None ->
  calls (api_search (credentials id secret) query) up
  = [token_call (credentials id secret);
     Get url [("Authorization", "Bearer undefined")]].
Proof.
  intros Hi Hs Hv Hu Hup Hc Hf.
  assert (getAccessToken (credentials id secret) up
          = (Returned VUndefined, [token_call (credentials id secret)])) as E.
  { rewrite (getAccessToken_configured id secret up Hi Hs).
    unfold try_catch, bind, axios. rewrite Hup. unfold settle, is_2xx.
    replace ((200 <=? code)%N) with true by (symmetry; apply N.leb_le; lia).
    replace ((code <? 300)%N) with true by (symmetry; apply N.ltb_lt; lia).
    cbn [andb]. unfold member. cbn [data nullish get]. rewrite Hf. reflexivity. }
  unfold calls. rewrite (api_search_forwards _ query url Hv Hu).
  rewrite (forward_token_success _ _ up VUndefined "undefined" _ E eq_refl).
  destruct (settle _) as [r|err]; [reflexivity|].
  pose proof (relay_error_calls err up) as Hr. unfold calls in Hr.
  destruct (relay_error err up) as [o cs']. simpl in *. subst cs'. reflexivity.
Qed.

Lemma missing_access_token_sends_undefined_witness :
  calls (api_search Demo.env Demo.cat_images)
        (Demo.upstream (Replied 200 (VObj [("token", VStr "t0k")]))
                       (Replied 401 VNull))
  = [token_call Demo.env;
     Get "https://api.openverse.org/v1/images?q=cat"
         [("Authorization", "Bearer undefined")]].
Proof.
  apply (missing_access_token_sends_undefined "id" "secret" Demo.cat_images
           (Demo.upstream (Replied 200 (VObj [("token", VStr "t0k")]))
                          (Replied 401 VNull))
           "https://api.openverse.org/v1/images?q=cat"
           200%N [("token", VStr "t0k")]).
  - discriminate.
  - discriminate.
  - reflexivity.
  - reflexivity.
  - reflexivity.
  - lia.
  - reflexivity.
Defined.

(** X10.  With the client identifier or the client secret unset or empty,
    no request to [/api/search] makes the server contact the upstream at
    all, whatever the query. *)
Theorem unconfigured_is_offline (env : Env) (query : Query) (up : Upstream) :
  OPENVERSE_CLIENT_ID env = None \/ OPENVERSE_CLIENT_ID env = Some ""
  \/ OPENVERSE_CLIENT_SECRET env = None \/ OPENVERSE_CLIENT_SECRET env = Some "" ->
  calls (api_search env query) up = [].
Proof.
  intros H.
  assert (configured env = false) as Ec.
  { unfold configured, CLIENT_ID, CLIENT_SECRET.
    destruct H as [H | [H | [H | H]]]; rewrite H; simpl;
      try reflexivity; apply andb_false_r. }
  unfold calls.
  destruct (api_search_handled env query) as [ | | | | |url Hv Hu];
    try reflexivity.
  rewrite (forward_token_failure env _ up _ _ (getAccessToken_unconfigured env up Ec)).
  reflexivity.
Qed.

Lemma unconfigured_is_offline_witness :
  calls (api_search {| OPENVERSE_CLIENT_ID := Some ""; OPENVERSE_CLIENT_SECRET := Some "s" |}
                    Demo.cat_images)
        (Demo.upstream Demo.token_ok (Replied 200 Demo.results))
  = [].
Proof.
  apply (unconfigured_is_offline
           {| OPENVERSE_CLIENT_ID := Some ""; OPENVERSE_CLIENT_SECRET := Some "s" |}
           Demo.cat_images
           (Demo.upstream Demo.token_ok (Replied 200 Demo.results))).
  right. left. reflexivity.
Defined.

(** X11.  With both credentials set, every request that passes validation
    and has its URL built begins with a token request carrying the
    credentials, whatever the upstream goes on to answer: the handler never
    goes to the search first. *)
Theorem token_requested_every_time
        (id secret : string) (query : Query) (up : Upstream) (url : string) :
  id <> "" -> secret <> "" ->
  passes_validation query = true ->
  apiUrl (mediaType query) (q query) (license query) = Some url ->
  exists rest,
    calls (api_search (credentials id secret) query) up
    = Post "https://api.openverse.org/v1/auth_tokens/token/"
           [("client_id", id); ("client_secret", secret);
            ("grant_type", "client_credentials")]
           [("Content-Type", "application/x-www-form-urlencoded")]
      :: rest.
Proof.
  intros Hi Hs Hv Hu.
  assert (configured (credentials id secret) = true) as Ec.
  { unfold configured. simpl. apply String.eqb_neq in Hi, Hs. rewrite Hi, Hs.
    reflexivity. }
  unfold calls. rewrite (api_search_forwards _ query url Hv Hu).
  change (Post "https://api.openverse.org/v1/auth_tokens/token/"
               [("client_id", id); ("client_secret", secret);
                ("grant_type", "client_credentials")]
               [("Content-Type", "application/x-www-form-urlencoded")])
    with (token_call (credentials id secret)).
  destruct (forward_paths (credentials id secret) url up)
    as [e cs E | token cs E Hs'
        | token bearer cs code payload E Hs' Hup H2
        | token bearer cs reason E Hs' Hup
        | token bearer cs payload E Hs' Hup
        | token bearer cs code payload E Hs' Hup H2 H0 H400
        | token bearer cs payload detail E Hs' Hup Hd
        | token bearer cs payload E Hs' Hup Hd];
    try (destruct (getAccessToken_returned_calls _ up token cs E) as [_ ->]);
    try (eexists; reflexivity).
  rewrite (getAccessToken_thrown_calls _ up e cs E), Ec. eexists. reflexivity.
Qed.

Lemma token_requested_every_time_witness :
  exists rest,
    calls (api_search Demo.env Demo.cat_images)
          (Demo.upstream (Replied 500 VNull) (Replied 200 Demo.results))
    = token_call Demo.env :: rest.
Proof.
  apply (token_requested_every_time "id" "secret" Demo.cat_images
           (Demo.upstream (Replied 500 VNull) (Replied 200 Demo.results))
           "https://api.openverse.org/v1/images?q=cat").
  - discriminate.
  - discriminate.
  - reflexivity.
  - reflexivity.
Defined.

(** *** Further properties of the relay of search failures *)

(** X12.  Once the URL is built and the token is in hand, an upstream search
    answered with a status outside 2xx other than 400 is relayed under that
    very status:
    401 with "Authentication failed: Invalid or expired access token", 429
    with "Rate limit exceeded. Please try again later.", any other with the
    message [axios] gives the rejection, "Request failed with status code
    <status>". *)
Theorem search_status_relayed
        (env : Env) (query : Query) (up : Upstream) (url : string)
        (token : Value) (bearer : string) (code : N) (payload : Value) :
  passes_validation query = true ->
  apiUrl (mediaType query) (q query) (license query) = Some url ->
  answer (getAccessToken env) up = Returned token ->
  to_string token = Some bearer ->
  up (search_call url bearer)
  = Replied code payload ->
  (100 <= code < 200 \/ 300 <= code <= 599)%N ->
  code <> 400%N ->
  answer (api_search env query) up
  = Returned {| statusCode := code;
                sent := Some (VObj [("error", VStr
                  (if (code =? 401)%N
                   then "Authentication failed: Invalid or expired access token"
                   else if (code =? 429)%N
                   then "Rate limit exceeded. Please try again later."
                   else "Request failed with status code " ++ decimal code))]) |}.
Proof.
  intros Hv Hu Ht Hs Hup Hr H400. unfold answer in *.
  destruct (getAccessToken env up) as [o cs] eqn:E. simpl in Ht. subst o.
  rewrite (api_search_forwards env query url Hv Hu).
  rewrite (forward_token_success env _ up token bearer cs E Hs), Hup.
  unfold settle.
  replace (is_2xx code) with false.
  2:{ symmetry. unfold is_2xx. apply andb_false_iff.
      destruct Hr as [Hr|Hr]; [left; apply N.leb_gt | right; apply N.ltb_ge]; lia. }
  rewrite relay_error_response by lia.
  apply N.eqb_neq in H400. rewrite H400. reflexivity.
Qed.

Lemma search_status_relayed_witness :
  answer (api_search Demo.env Demo.cat_images)
         (Demo.upstream Demo.token_ok (Replied 429 (VObj [("detail", VStr "slow down")])))
  = Returned {| statusCode := 429;
                sent := Some (VObj [("error",
                  VStr "Rate limit exceeded. Please try again later.")]) |}.
Proof.
  apply (search_status_relayed Demo.env Demo.cat_images
           (Demo.upstream Demo.token_ok
              (Replied 429 (VObj [("detail", VStr "slow down")])))
           "https://api.openverse.org/v1/images?q=cat"
           (VStr "t0k") "t0k" 429%N (VObj [("detail", VStr "slow down")])).
  - reflexivity.
  - reflexivity.
  - reflexivity.
  - reflexivity.
  - reflexivity.
  - lia.
  - discriminate.
Defined.

(** X13.  Once the URL is built and the token is in hand, an upstream search
    that gets no answer from the network is reported with status 500 and
    the message of the transport error, untouched. *)
Theorem search_network_error_is_500
        (env : Env) (query : Query) (up : Upstream) (url : string)
        (token : Value) (bearer : string) (reason : string) :
  passes_validation query = true ->
  apiUrl (mediaType query) (q query) (license query) = Some url ->
  answer (getAccessToken env) up = Returned token ->
  to_string token = Some bearer ->
  up (search_call url bearer)
  = NoReply reason ->
  answer (api_search env query) up
  = Returned {| statusCode := 500; sent := Some (VObj [("error", VStr reason)]) |}.
Proof.
  intros Hv Hu Ht Hs Hup. unfold answer in *.
  destruct (getAccessToken env up) as [o cs] eqn:E. simpl in Ht. subst o.
  rewrite (api_search_forwards env query url Hv Hu).
  rewrite (forward_token_success env _ up token bearer cs E Hs), Hup.
  cbn [settle]. rewrite relay_error_no_response. reflexivity.
Qed.

Lemma search_network_error_is_500_witness :
  answer (api_search Demo.env Demo.cat_images)
         (Demo.upstream Demo.token_ok (NoReply "getaddrinfo ENOTFOUND api.openverse.org"))
  = Returned {| statusCode := 500;
                sent := Some (VObj [("error",
                  VStr "getaddrinfo ENOTFOUND api.openverse.org")]) |}.
Proof.
  apply (search_network_error_is_500 Demo.env Demo.cat_images
           (Demo.upstream Demo.token_ok
              (NoReply "getaddrinfo ENOTFOUND api.openverse.org"))
           "https://api.openverse.org/v1/images?q=cat"
           (VStr "t0k") "t0k" "getaddrinfo ENOTFOUND api.openverse.org").
  - reflexivity.
  - reflexivity.
  - reflexivity.
  - reflexivity.
  - reflexivity.
Defined.

(** X14.  For a request whose URL was built and whose token was obtained:
    when the upstream search answers 400 with a [detail] that is a
    non-empty string, the caller gets status 400 and "Bad request: "
    followed by that string. *)
Theorem bad_request_carries_detail
        (env : Env) (query : Query) (up : Upstream) (url : string)
        (token : Value) (bearer : string) (payload : Value) (detail : string) :
  passes_validation query = true ->
  apiUrl (mediaType query) (q query) (license query) = Some url ->
  answer (getAccessToken env) up = Returned token ->
  to_string token = Some bearer ->
  up (search_call url bearer)
  = Replied 400 payload ->
  get_opt payload "detail" = VStr detail ->
  detail <> "" ->
  answer (api_search env query) up
  = Returned {| statusCode := 400;
                sent := Some (VObj [("error", VStr ("Bad request: " ++ detail))]) |}.
Proof.
  intros Hv Hu Ht Hs Hup Hd Hne. unfold answer in *.
  destruct (getAccessToken env up) as [o cs] eqn:E. simpl in Ht. subst o.
  rewrite (api_search_forwards env query url Hv Hu).
  rewrite (forward_token_success env _ up token bearer cs E Hs), Hup.
  unfold settle. change (is_2xx 400) with false. cbv iota.
  rewrite relay_error_response by discriminate.
  change (400 =? 400)%N with true. cbv iota.
  unfold or_else. rewrite Hd. cbn [truthy].
  apply String.eqb_neq in Hne. rewrite Hne. reflexivity.
Qed.

Lemma bad_request_carries_detail_witness :
  answer (api_search Demo.env Demo.cat_images)
         (Demo.upstream Demo.token_ok
            (Replied 400 (VObj [("detail", VStr "Invalid license")])))
  = Returned {| statusCode := 400;
                sent := Some (VObj [("error", VStr "Bad request: Invalid license")]) |}.
Proof.
  apply (bad_request_carries_detail Demo.env Demo.cat_images
           (Demo.upstream Demo.token_ok
              (Replied 400 (VObj [("detail", VStr "Invalid license")])))
           "https://api.openverse.org/v1/images?q=cat"
           (VStr "t0k") "t0k" (VObj [("detail", VStr "Invalid license")])
           "Invalid license").
  - reflexivity.
  - reflexivity.
  - reflexivity.
  - reflexivity.
  - reflexivity.
  - reflexivity.
  - discriminate.
Defined.


(** *** Further properties of the upstream URL *)

Fixpoint occurrences (c : ascii) (s : string) : nat :=
  match s with
  | EmptyString => 0
  | String a rest => (if Ascii.eqb c a then 1 else 0) + occurrences c rest
  end.

Lemma occurrences_app (c : ascii) (a b : string) :
  occurrences c (a ++ b) = occurrences c a + occurrences c b.
Proof.
  induction a as [|x a IH]; simpl; [reflexivity|]. rewrite IH. lia.
Qed.

Lemma hex_digit_unreserved (n : N) : Uri.unreserved (Uri.hex_digit n) = true.
Proof.
  destruct n as [|p]; [reflexivity|].
  do 4 (destruct p as [p|p|]; try reflexivity).
Qed.

Lemma eqb_reserved_unreserved (c a : ascii) :
  Uri.unreserved c = false -> Uri.unreserved a = true -> Ascii.eqb c a = false.
Proof.
  intros Hc Ha. destruct (Ascii.eqb_spec c a) as [->|_]; [congruence | reflexivity].
Qed.

(** A character that is neither unreserved nor the percent sign does not
    occur in an encoded component. *)
Lemma encoded_has_no_reserved (c : ascii) (s : string) :
  Uri.unreserved c = false -> c <> "%"%char ->
  occurrences c (Uri.encodeURIComponent s) = 0.
Proof.
  intros Hc Hp. induction s as [|a s IH]; [reflexivity|].
  cbn [Uri.encodeURIComponent]. rewrite occurrences_app, IH.
  enough (occurrences c (if Uri.unreserved a then String a "" else Uri.percent a) = 0)
    as E by (rewrite E; reflexivity).
  destruct (Uri.unreserved a) eqn:Ha.
  - cbn [occurrences]. rewrite (eqb_reserved_unreserved c a Hc Ha). reflexivity.
  - unfold Uri.percent. cbn [occurrences].
    rewrite !(eqb_reserved_unreserved c _ Hc (hex_digit_unreserved _)).
    destruct (Ascii.eqb_spec c "%"); [contradiction | reflexivity].
Qed.

Lemma some_inj {A : Type} (a b : A) : Some a = Some b -> a = b.
Proof. intros H. injection H as H. exact H. Qed.

(** X15.  Nothing in [q] can add to or cut short the query string sent
    upstream.  For a request that passes validation, whatever [q] is, the
    URL built has one [?], no [#], one [&] exactly when a non-empty license
    is given and none otherwise, and one [=] for [q] plus one for the
    license. *)
Theorem upstream_url_delimiters (mt : string) (qv lic : QVal) (url : string) :
  mt = "images" \/ mt = "audio" ->
  lic = QUndef \/ lic = QStr "" \/ (exists l, lic = QStr l /\ In l validLicenses) ->
  apiUrl (QStr mt) qv lic = Some url ->
  let n := if q_truthy lic then 1 else 0 in
  occurrences "?" url = 1
  /\ occurrences "#" url = 0
  /\ occurrences "&" url = n
  /\ occurrences "=" url = 1 + n.
Proof.
  intros Hm Hl Hu n. subst n.
  destruct (q_to_string qv) as [text|] eqn:Hq;
    [|unfold apiUrl in Hu; rewrite Hq in Hu; discriminate].
  rewrite (apiUrl_validated mt qv lic text Hl Hq) in Hu.
  apply some_inj in Hu. subst url.
  assert (forall c, In c ["?"; "#"; "&"; "="]%char ->
                    occurrences c (Uri.encodeURIComponent text) = 0) as He.
  { intros c Hin. apply encoded_has_no_reserved;
      simpl in Hin; repeat (destruct Hin as [<- | Hin]; [try reflexivity; discriminate|]);
      contradiction. }
  repeat rewrite occurrences_app.
  rewrite !He by (simpl; tauto).
  destruct Hm as [-> | ->];
    (destruct Hl as [-> | [-> | (l & -> & Hin)]];
     [repeat split; reflexivity
     |repeat split; reflexivity
     |simpl in Hin;
      repeat (destruct Hin as [<- | Hin]; [repeat split; reflexivity|]);
      contradiction]).
Qed.

Lemma upstream_url_delimiters_witness :
  occurrences "&"
    "https://api.openverse.org/v1/images?q=cat%26license%3DXX%23%3F&license=BY" = 1.
Proof.
  apply (upstream_url_delimiters "images" (QStr "cat&license=XX#?") (QStr "BY")
           "https://api.openverse.org/v1/images?q=cat%26license%3DXX%23%3F&license=BY").
  - left. reflexivity.
  - right. right. exists "BY". split; [reflexivity | simpl; tauto].
  - reflexivity.
Defined.

Example injection_attempt_encoded :
  apiUrl (QStr "images") (QStr "cat&license=XX#?") (QStr "BY")
  = Some "https://api.openverse.org/v1/images?q=cat%26license%3DXX%23%3F&license=BY".
Proof. reflexivity. Qed.

(** Percent-decoding, as the receiving end does it; used to show that the
    encoding loses nothing. *)
Definition unhex (c : ascii) : option N :=
  let n := N_of_ascii c in
  if Uri.in_range "0" "9" c then Some (n - 48)%N
  else if Uri.in_range "A" "F" c then Some (n - 55)%N
  else None.

Fixpoint percent_decode (s : string) : option string :=
  match s with
  | EmptyString => Some ""
  | String "%" (String h (String l rest)) =>
      match unhex h, unhex l with
      | Some a, Some b =>
          option_map (String (ascii_of_N (16 * a + b))) (percent_decode rest)
      | _, _ => None
      end
  | String c rest => option_map (String c) (percent_decode rest)
  end.

Lemma percent_decode_percent (c : ascii) (rest : string) :
  percent_decode (Uri.percent c ++ rest)
  = option_map (String c) (percent_decode rest).
Proof.
  destruct c as [[] [] [] [] [] [] [] []]; reflexivity.
Qed.

Lemma percent_decode_unreserved (c : ascii) (rest : string) :
  Uri.unreserved c = true ->
  percent_decode (String c rest) = option_map (String c) (percent_decode rest).
Proof.
  destruct c as [[] [] [] [] [] [] [] []]; intros H; try discriminate H; reflexivity.
Qed.

Lemma percent_decode_encode (s : string) :
  percent_decode (Uri.encodeURIComponent s) = Some s.
Proof.
  induction s as [|c s IH]; [reflexivity|].
  cbn [Uri.encodeURIComponent].
  destruct (Uri.unreserved c) eqn:Hc.
  - change (String c "" ++ Uri.encodeURIComponent s)
      with (String c (Uri.encodeURIComponent s)).
    rewrite (percent_decode_unreserved c _ Hc), IH. reflexivity.
  - rewrite percent_decode_percent, IH. reflexivity.
Qed.

Lemma encodeURIComponent_injective (a b : string) :
  Uri.encodeURIComponent a = Uri.encodeURIComponent b -> a = b.
Proof.
  intros H. apply (f_equal percent_decode) in H.
  rewrite !percent_decode_encode in H. injection H as H. exact H.
Qed.

Lemma append_cancel_l (p a b : string) : p ++ a = p ++ b -> a = b.
Proof.
  induction p as [|c p IH]; simpl; intros H; [exact H|].
  injection H as H. exact (IH H).
Qed.

Lemma length_append (a b : string) :
  String.length (a ++ b) = String.length a + String.length b.
Proof.
  induction a as [|c a IH]; simpl; [reflexivity | now rewrite IH].
Qed.

Lemma append_cancel_r (a b s : string) : a ++ s = b ++ s -> a = b.
Proof.
  revert b. induction a as [|c a IH]; intros [|d b] H.
  - reflexivity.
  - apply (f_equal String.length) in H. simpl in H. rewrite length_append in H. lia.
  - apply (f_equal String.length) in H. simpl in H. rewrite length_append in H. lia.
  - simpl in H. injection H as -> H. f_equal. exact (IH b H).
Qed.

(** X16.  The search term reaches the upstream without loss: two requests
    with the same [mediaType] and [license] are sent to the same URL only
    if their [q] read the same as text. *)
Theorem upstream_url_determines_q (mt q1 q2 lic : QVal) (url : string) :
  apiUrl mt q1 lic = Some url ->
  apiUrl mt q2 lic = Some url ->
  q_to_string q1 = q_to_string q2.
Proof.
  unfold apiUrl. intros H1 H2.
  destruct (q_to_string mt) as [type|]; [|discriminate].
  destruct (q_to_string q1) as [t1|]; [|discriminate].
  destruct (q_to_string q2) as [t2|]; [|discriminate].
  destruct (if q_truthy lic
            then option_map (append "&license=") (q_to_string lic)
            else Some "") as [suffix|]; [|discriminate].
  apply some_inj in H1, H2. rewrite <- H2 in H1.
  apply append_cancel_l in H1. apply append_cancel_l in H1.
  apply append_cancel_l in H1. apply append_cancel_r in H1.
  f_equal. exact (encodeURIComponent_injective _ _ H1).
Qed.

Lemma upstream_url_determines_q_witness :
  q_to_string (QArr [QStr "a"; QStr "b"]) = q_to_string (QStr "a,b").
Proof.
  apply (upstream_url_determines_q (QStr "audio") (QArr [QStr "a"; QStr "b"])
           (QStr "a,b") QUndef "https://api.openverse.org/v1/audio?q=a%2Cb").
  - reflexivity.
  - reflexivity.
Defined.

(** *** Where the handler ends without an answer and without a call *)

(** X17.  The handler throws before any answer and any network call exactly
    when it converts to text a query value that cannot be converted: an
    invalid [mediaType] on its way to the log, an invalid non-empty
    [license] on its way to the log, or, past both checks, [q] on its way
    into the URL. *)
Theorem silent_failure_iff (env : Env) (query : Query) (up : Upstream) :
  api_search env query up
  = (Threw (Error "Cannot convert object to primitive value"), [])
  <->
  (includes validMediaTypes (mediaType query) = false
   /\ q_to_string (mediaType query) = None)
  \/ (includes validMediaTypes (mediaType query) = true
      /\ q_truthy (license query) = true
      /\ includes validLicenses (license query) = false
      /\ q_to_string (license query) = None)
  \/ (passes_validation query = true
      /\ q_to_string (q query) = None).
Proof.
  split.
  - destruct (api_search_handled env query) as [ | | | | |url Hv Hu];
      unfold ret, throw; try (intros Hx; discriminate Hx); try tauto.
    forward_cases env url up; intros Hx; try discriminate Hx.
    injection Hx as Hx. destruct cs; discriminate Hx.
  - intros [(Hm & Hs) | [(Hm & Ht & Hl & Hs) | (Hv & Hq)]].
    + unfold api_search, q_template, bind. rewrite Hm, Hs. reflexivity.
    + unfold api_search, q_template, bind. rewrite Hm, Ht, Hl, Hs. reflexivity.
    + rewrite (api_search_validated env query Hv). unfold apiUrl. rewrite Hq.
      destruct (q_to_string (mediaType query)); reflexivity.
Qed.

Lemma silent_failure_iff_witness :
  api_search Demo.env
             {| q := QObj [("toString", QStr "x")];
                mediaType := QStr "images"; license := QUndef |}
             (Demo.upstream Demo.token_ok (Replied 200 Demo.results))
  = (Threw (Error "Cannot convert object to primitive value"), []).
Proof.
  apply (proj2 (silent_failure_iff Demo.env
                  {| q := QObj [("toString", QStr "x")];
                     mediaType := QStr "images"; license := QUndef |}
                  (Demo.upstream Demo.token_ok (Replied 200 Demo.results)))).
  right. right. split; reflexivity.
Defined.
